(** * Telemetry analysers of [f1_data_fetcher.py]

    A shallow embedding of the signal-processing functions of
    [src/python/f1_data_fetcher.py] and the properties of their outputs.

    Numbers.  Telemetry samples, lap times and every derived quantity are
    exact rationals ([Q]); the float rounding of numpy is not modelled, and
    neither are NaN samples.  Indices and counts are [nat]: every index the
    source computes is non-negative ([max(0, i-35)], [i-10] under [i > 20],
    [i-1] under [i >= 1]), and the two negative subscripts [x[-1]] are
    written with [last].

    Effects.  A Python exception is a value of [result]; provider calls
    ([fastf1.get_session], [session.load], [lap.get_telemetry]) are outside
    the model: the analysers start from the loaded telemetry frame or the
    loaded lap table. *)

From Stdlib Require Import String Ascii.
From Stdlib Require Import List Arith ZArith QArith Qminmax Qround Bool.
From Stdlib Require Import Sorted Lia Lqa.
Import ListNotations.

Set Implicit Arguments.

(* ================================================================== *)
(** * Part I: definitions *)
(* ================================================================== *)

(** ** Exceptions *)

Inductive exn : Type :=
| IndexError   (* subscript out of range *)
| TypeError.   (* [list > int] *)

(** [OutOfFuel] is not a Python outcome: it is the answer of a bounded
    unrolling of a [while] loop whose bound was too small. *)
Inductive result (A : Type) : Type :=
| Ok (a : A)
| Raise (e : exn)
| OutOfFuel.

Arguments Ok {A} a.
Arguments Raise {A} e.
Arguments OutOfFuel {A}.

Definition bind {A B : Type} (m : result A) (k : A -> result B) : result B :=
  match m with
  | Ok a => k a
  | Raise e => Raise e
  | OutOfFuel => OutOfFuel
  end.

Declare Scope py_scope.
Delimit Scope py_scope with py.
Notation "x <- m ;; k" := (bind m (fun x => k))
  (at level 61, m at next level, right associativity) : py_scope.
Open Scope py_scope.
Open Scope Q_scope.

(** ** Comparisons and array primitives *)

Definition Qlt_bool (x y : Q) : bool := negb (Qle_bool y x).

Notation "x >? y" := (Qlt_bool y x) (at level 70, no associativity) : py_scope.
Notation "x <? y" := (Qlt_bool x y) (at level 70, no associativity) : py_scope.
Notation "x >=? y" := (Qle_bool y x) (at level 70, no associativity) : py_scope.
Notation "x <=? y" := (Qle_bool x y) (at level 70, no associativity) : py_scope.

Definition QofN (n : nat) : Q := inject_Z (Z.of_nat n).

(** [xs[i]] for [i >= 0]. *)
Definition getitem (xs : list Q) (i : nat) : result Q :=
  match nth_error xs i with
  | Some x => Ok x
  | None => Raise IndexError
  end.

(** [xs[a:b]] for [0 <= a]; Python clips both ends to the length. *)
Definition slice {A : Type} (xs : list A) (a b : nat) : list A :=
  firstn (b - a) (skipn a xs).

Definition sumQ (xs : list Q) : Q := fold_right Qplus 0 xs.

(** [np.mean]; the source only calls it on non-empty data. *)
Definition mean (xs : list Q) : Q := sumQ xs / QofN (length xs).

(** ** The telemetry frame

    [telemetry['X'].values if 'X' in telemetry.columns else []]: a column is
    either a numpy array or, when the frame lacks it, the Python list [[]]. *)

Record telemetry : Type := {
  Speed    : option (list Q);
  Distance : option (list Q);
  Brake    : option (list Q);
  Throttle : option (list Q);
}.

Definition values (col : option (list Q)) : list Q :=
  match col with
  | Some xs => xs
  | None => []
  end.

(** ** Corner detector ([get_corner_analysis]) *)

Record brake_point : Type := {
  bp_distance : Q;
  bp_speed : Q;
  bp_brakeForce : Q;
}.

Record apex_point : Type := {
  apex_distance : Q;
  apex_minSpeed : Q;
}.

Record exit_point : Type := {
  exit_distance : Q;
  exit_speed : Q;
  exit_throttle : Q;
}.

Inductive corner_type : Type := slow | medium | fast.

Record corner : Type := {
  cornerNumber : nat;
  brakePoint : brake_point;
  apex : apex_point;
  exit : exit_point;
  speedDelta : Q;
  type : corner_type;
}.

Definition min_corner_distance : Q := 150.
Definition min_speed_drop : Q := 40.

(** [for j in range(j, j+n): if brake[j] > 25: brake_point_idx = j; break],
    entered with [brake_point_idx = dflt]. *)
Fixpoint brake_point_loop (brake : list Q) (j n dflt : nat) : result nat :=
  match n with
  | O => Ok dflt
  | S n' =>
      b <- getitem brake j ;;
      if b >? 25 then Ok j else brake_point_loop brake (S j) n' dflt
  end.

(** Lines 392-396; [range(max(0, i-35), i)] has [i - max(0, i-35)] terms. *)
Definition brake_point_idx (brake : list Q) (i : nat) : result nat :=
  let lo := (i - 35)%nat in
  brake_point_loop brake lo (i - lo) i.

(** [for j in range(j, j+n): if speed[j] < min_speed: min_speed, apex_idx = speed[j], j]. *)
Fixpoint apex_loop (speed : list Q) (j n apex_idx : nat) (min_speed : Q)
  : result nat :=
  match n with
  | O => Ok apex_idx
  | S n' =>
      s <- getitem speed j ;;
      if s <? min_speed then apex_loop speed (S j) n' j s
      else apex_loop speed (S j) n' apex_idx min_speed
  end.

(** Lines 399-404. *)
Definition find_apex (speed : list Q) (i : nat) : result nat :=
  min_speed <- getitem speed i ;;
  apex_loop speed i (Nat.min (i + 40) (length speed) - i) i min_speed.

(** [for j in range(j, j+n): if throttle[j] > 60 and speed[j] > apex_speed + 15:
    exit_idx = j; break], entered with [exit_idx = dflt]. *)
Fixpoint exit_loop (speed throttle : list Q) (apex_idx j n dflt : nat)
  : result nat :=
  match n with
  | O => Ok dflt
  | S n' =>
      t <- getitem throttle j ;;
      if t >? 60 then
        s <- getitem speed j ;;
        sa <- getitem speed apex_idx ;;
        if s >? sa + 15 then Ok j
        else exit_loop speed throttle apex_idx (S j) n' dflt
      else exit_loop speed throttle apex_idx (S j) n' dflt
  end.

(** Lines 407-411. *)
Definition find_exit (speed throttle : list Q) (apex_idx : nat) : result nat :=
  exit_loop speed throttle apex_idx apex_idx
    (Nat.min (apex_idx + 40) (length speed) - apex_idx) apex_idx.

Definition classify (apex_speed : Q) : corner_type :=
  if apex_speed <? 100 then slow
  else if apex_speed <? 180 then medium
  else fast.

(** The dict literal of lines 418-436, for corner number [number]. *)
Definition corner_data (speed distance brake throttle : list Q)
    (number brake_point_idx apex_idx exit_idx : nat) (speed_delta : Q)
  : result corner :=
  bd <- getitem distance brake_point_idx ;;
  bs <- getitem speed brake_point_idx ;;
  bf <- getitem brake brake_point_idx ;;
  ad <- getitem distance apex_idx ;;
  am <- getitem speed apex_idx ;;
  ed <- getitem distance exit_idx ;;
  es <- getitem speed exit_idx ;;
  et <- getitem throttle exit_idx ;;
  Ok {| cornerNumber := number;
        brakePoint := {| bp_distance := bd; bp_speed := bs; bp_brakeForce := bf |};
        apex := {| apex_distance := ad; apex_minSpeed := am |};
        exit := {| exit_distance := ed; exit_speed := es; exit_throttle := et |};
        speedDelta := speed_delta;
        type := classify am |}.

(** What one pass through the body of the [while] loop decides. *)
Inductive scan_step : Type :=
| Accepted (c : corner) (apex_idx exit_idx : nat)
| Rejected.

(** Lines 391-441: the treatment of a candidate at scan index [i]. *)
Definition candidate (speed distance brake throttle : list Q) (i number : nat)
  : result scan_step :=
  brake_point_idx <- brake_point_idx brake i ;;
  apex_idx <- find_apex speed i ;;
  exit_idx <- find_exit speed throttle apex_idx ;;
  sb <- getitem speed brake_point_idx ;;
  sa <- getitem speed apex_idx ;;
  let speed_delta := sb - sa in
  if speed_delta >? 25 then
    c <- corner_data speed distance brake throttle
           number brake_point_idx apex_idx exit_idx speed_delta ;;
    Ok (Accepted c apex_idx exit_idx)
  else Ok Rejected.

(** Lines 379-445: the [while] loop, unrolled at most [fuel] times.
    [i < len(speed) - 40] is written [i + 40 < len(speed)]. *)
Fixpoint corner_loop (fuel : nat) (speed distance brake throttle : list Q)
    (i : nat) (corners : list corner) (last_corner_dist : Q)
  : result (list corner) :=
  match fuel with
  | O => OutOfFuel
  | S fuel' =>
      let continue := corner_loop fuel' speed distance brake throttle in
      if (i + 40 <? length speed)%nat then
        if (20 <? i)%nat then
          let speed_before := mean (slice speed (i - 10) i) in
          speed_at <- getitem speed i ;;
          let speed_drop := speed_before - speed_at in
          if speed_drop >? min_speed_drop then
            d <- getitem distance i ;;
            if d - last_corner_dist >? min_corner_distance then
              st <- candidate speed distance brake throttle i
                      (length corners + 1) ;;
              match st with
              | Accepted c apex_idx exit_idx =>
                  last <- getitem distance apex_idx ;;
                  continue (exit_idx + 20)%nat (corners ++ [c]) last
              | Rejected => continue (i + 5)%nat corners last_corner_dist
              end
            else continue (i + 5)%nat corners last_corner_dist
          else continue (i + 5)%nat corners last_corner_dist
        else continue (i + 1)%nat corners last_corner_dist
      else Ok corners
  end.

(** Lines 367-450; the scan index grows at every pass, so [len(speed) + 1]
    passes are enough ([corner_loop_spec]). *)
Definition corner_scan (speed distance brake throttle : list Q)
  : result (list corner) :=
  corner_loop (S (length speed)) speed distance brake throttle
    30 [] (- min_corner_distance).

Definition get_corner_analysis (t : telemetry) : result (list corner) :=
  corner_scan (values (Speed t)) (values (Distance t))
              (values (Brake t)) (values (Throttle t)).

(** The same [while] loop (lines 379-445), keeping with every corner it
    appends the scan index [i] at which the corner was detected.  The
    corners are those of [corner_loop] ([corner_detections_corners]). *)
Fixpoint corner_detections (fuel : nat) (speed distance brake throttle : list Q)
    (i : nat) (detections : list (nat * corner)) (last_corner_dist : Q)
  : result (list (nat * corner)) :=
  match fuel with
  | O => OutOfFuel
  | S fuel' =>
      let continue := corner_detections fuel' speed distance brake throttle in
      if (i + 40 <? length speed)%nat then
        if (20 <? i)%nat then
          let speed_before := mean (slice speed (i - 10) i) in
          speed_at <- getitem speed i ;;
          let speed_drop := speed_before - speed_at in
          if speed_drop >? min_speed_drop then
            d <- getitem distance i ;;
            if d - last_corner_dist >? min_corner_distance then
              st <- candidate speed distance brake throttle i
                      (length detections + 1) ;;
              match st with
              | Accepted c apex_idx exit_idx =>
                  last <- getitem distance apex_idx ;;
                  continue (exit_idx + 20)%nat (detections ++ [(i, c)]) last
              | Rejected => continue (i + 5)%nat detections last_corner_dist
              end
            else continue (i + 5)%nat detections last_corner_dist
          else continue (i + 5)%nat detections last_corner_dist
        else continue (i + 1)%nat detections last_corner_dist
      else Ok detections
  end.

(** The scan of [get_corner_analysis] with its detection indices. *)
Definition get_corner_detections (t : telemetry) : result (list (nat * corner)) :=
  corner_detections (S (length (values (Speed t))))
    (values (Speed t)) (values (Distance t))
    (values (Brake t)) (values (Throttle t))
    30 [] (- min_corner_distance).

(** ** Brake-zone detector ([get_brake_analysis]) *)

Record brake_zone : Type := {
  startDistance : Q;
  endDistance : Q;
  peakBrakeForce : Q;
  zoneAvgBrakeForce : Q;   (* key ['avgBrakeForce'] of a zone *)
  speedLoss : Q;
  duration : Q;
}.

Record brake_analysis : Type := {
  brakeZones : list brake_zone;
  totalBrakeTimePercent : Q;
  avgBrakeForce : Q;
}.

(** [np.max]; the source only calls it on a zone of more than 5 samples. *)
Definition maxQ (xs : list Q) : Q :=
  match xs with
  | [] => 0
  | x :: rest => fold_left Qmax rest x
  end.

(** The dict literal of lines 523-530 for the zone [brake[zone_start:i]]. *)
Definition zone_record (brake speed distance : list Q) (zone_start i : nat)
  : result brake_zone :=
  let zone_data := slice brake zone_start i in
  let speed_data := slice speed zone_start i in
  sd <- getitem distance zone_start ;;
  ed <- getitem distance (i - 1) ;;
  Ok {| startDistance := sd;
        endDistance := ed;
        peakBrakeForce := maxQ zone_data;
        zoneAvgBrakeForce := mean zone_data;
        speedLoss := match speed_data with
                     | [] => 0
                     | s0 :: _ => s0 - last speed_data 0
                     end;
        duration := QofN (length zone_data) / 100 |}.

(** Lines 513-530: [for i in range(i, i+n)], with the loop's three
    variables as arguments. *)
Fixpoint brake_loop (brake speed distance : list Q) (n i : nat)
    (in_brake_zone : bool) (zone_start : nat) (brake_zones : list brake_zone)
  : result (list brake_zone) :=
  match n with
  | O => Ok brake_zones
  | S n' =>
      b <- getitem brake i ;;
      if (b >? 10) && negb in_brake_zone then
        brake_loop brake speed distance n' (S i) true i brake_zones
      else if (b <=? 10) && in_brake_zone then
        let zone_data := slice brake zone_start i in
        if (5 <? length zone_data)%nat then
          z <- zone_record brake speed distance zone_start i ;;
          brake_loop brake speed distance n' (S i) false zone_start
            (brake_zones ++ [z])
        else
          brake_loop brake speed distance n' (S i) false zone_start brake_zones
      else
        brake_loop brake speed distance n' (S i) in_brake_zone zone_start
          brake_zones
  end.

(** Lines 509-530. *)
Definition brake_zone_scan (brake speed distance : list Q)
  : result (list brake_zone) :=
  brake_loop brake speed distance (length brake) 0 false 0 [].

Definition positive (b : Q) : bool := b >? 0.

(** Lines 504-542.  [brake > 0] is evaluated on the column itself: on the
    list [[]] of an absent column it is a [TypeError]. *)
Definition get_brake_analysis (t : telemetry) : result brake_analysis :=
  let brake := values (Brake t) in
  let speed := values (Speed t) in
  let distance := values (Distance t) in
  brake_zones <- brake_zone_scan brake speed distance ;;
  let total_brake_time :=
    if (0 <? length brake)%nat
    then QofN (length (filter positive brake)) / QofN (length brake) * 100
    else 0 in
  avg_brake_force <-
    match Brake t with
    | None => Raise TypeError
    | Some b => Ok (if existsb positive b then mean (filter positive b) else 0)
    end ;;
  Ok {| brakeZones := firstn 10 brake_zones;
        totalBrakeTimePercent := total_brake_time;
        avgBrakeForce := avg_brake_force |}.

(** ** Throttle analyser ([get_throttle_trace]) *)

Record throttle_point : Type := {
  tp_distance : Q;
  throttleLevel : Q;
}.

Record throttle_trace : Type := {
  fullThrottlePct : Q;
  partialThrottlePct : Q;
  coastPct : Q;
  throttleApplicationPoints : list throttle_point;
}.

(** Lines 565-570: [for i in range(i, i+n)]. *)
Fixpoint throttle_loop (throttle distance : list Q) (n i : nat)
    (throttle_points : list throttle_point) : result (list throttle_point) :=
  match n with
  | O => Ok throttle_points
  | S n' =>
      prev <- getitem throttle (i - 1) ;;
      if prev <? 50 then
        cur <- getitem throttle i ;;
        if cur >=? 50 then
          d <- getitem distance i ;;
          throttle_loop throttle distance n' (S i)
            (throttle_points ++ [{| tp_distance := d; throttleLevel := cur |}])
        else throttle_loop throttle distance n' (S i) throttle_points
      else throttle_loop throttle distance n' (S i) throttle_points
  end.

(** [np.sum(mask) / len(xs) * 100 if len(xs) > 0 else 0]. *)
Definition pct (mask : Q -> bool) (xs : list Q) : Q :=
  if (0 <? length xs)%nat
  then QofN (length (filter mask xs)) / QofN (length xs) * 100
  else 0.

(** Lines 555-579; [range(1, len(throttle) - 1)] has [len - 2] terms. *)
Definition get_throttle_trace (t : telemetry) : result throttle_trace :=
  let throttle := values (Throttle t) in
  let distance := values (Distance t) in
  throttle_points <-
    throttle_loop throttle distance (length throttle - 1 - 1) 1 [] ;;
  Ok {| fullThrottlePct := pct (fun x => x >=? 95) throttle;
        partialThrottlePct := pct (fun x => (x >? 20) && (x <? 95)) throttle;
        coastPct := pct (fun x => x <=? 20) throttle;
        throttleApplicationPoints := firstn 15 throttle_points |}.

(** ** Downforce estimator ([get_downforce_analysis]) *)

Fixpoint insertQ (x : Q) (xs : list Q) : list Q :=
  match xs with
  | [] => [x]
  | y :: ys => if x <=? y then x :: xs else y :: insertQ x ys
  end.

Definition sortQ (xs : list Q) : list Q := fold_right insertQ [] xs.

(** [np.percentile(xs, q)] with the default linear interpolation: the value
    at the virtual index [q/100 * (n-1)] of the sorted data.  On an empty
    array numpy from 1.22 on raises [IndexError] (older versions answer
    nan); nothing below depends on that case. *)
Definition percentile (xs : list Q) (q : nat) : result Q :=
  match xs with
  | [] => Raise IndexError
  | _ =>
      let a := sortQ xs in
      let pos := (q * (length xs - 1))%nat in
      let lo := (pos / 100)%nat in
      let hi := Nat.min (lo + 1) (length xs - 1) in
      let frac := QofN (pos mod 100) / 100 in
      Ok (nth lo a 0 + (nth hi a 0 - nth lo a 0) * frac)
  end.

(** [np.var]: the mean of the squared deviations from the mean. *)
Definition var (xs : list Q) : Q :=
  let m := mean xs in
  mean (map (fun x => (x - m) * (x - m)) xs).

Record downforce_analysis : Type := {
  downforceIndex : Q;
  highSpeedAvg : Q;
  lowSpeedAvg : Q;
  speedVariance : Q;
  aerodynamicEfficiency : Q;
}.

(** Lines 464-491. *)
Definition get_downforce_analysis (t : telemetry) : result downforce_analysis :=
  let speed := values (Speed t) in
  p75 <- percentile speed 75 ;;
  let high_speed_mask := fun s => s >? p75 in
  let high_speed_avg :=
    if existsb high_speed_mask speed
    then mean (filter high_speed_mask speed) else 0 in
  p25 <- percentile speed 25 ;;
  let low_speed_mask := fun s => s <? p25 in
  let low_speed_avg :=
    if existsb low_speed_mask speed
    then mean (filter low_speed_mask speed) else 0 in
  let speed_variance := if (0 <? length speed)%nat then var speed else 0 in
  let downforce_index :=
    Qmin 100 (high_speed_avg / 350 * 70 + (30 - speed_variance / 100)) in
  Ok {| downforceIndex := downforce_index;
        highSpeedAvg := high_speed_avg;
        lowSpeedAvg := low_speed_avg;
        speedVariance := speed_variance;
        aerodynamicEfficiency := high_speed_avg / (speed_variance + 1) |}.

(** ** Energy estimator (command [energy-analysis] of [main]) *)

Inductive ers_level : Type := high | ers_medium | low.

Record energy_analysis : Type := {
  energyFullThrottlePct : Q;   (* key ['fullThrottlePct'] *)
  liftAndCoastPct : Q;
  estimatedBrakeEnergy : Q;
  estimatedEnergyRecovery : Q;
  efficiencyScore : Q;
  ersDeployment : ers_level;
  puStress : Q;
  fuelEfficiency : Q;
}.

(** [brake * speed] on two columns of one frame (same length). *)
Fixpoint mul_arrays (xs ys : list Q) : list Q :=
  match xs, ys with
  | x :: xs', y :: ys' => x * y :: mul_arrays xs' ys'
  | _, _ => []
  end.

(** Lines 842-868. *)
Definition get_energy_analysis (t : telemetry) : energy_analysis :=
  let throttle := values (Throttle t) in
  let brake := values (Brake t) in
  let speed := values (Speed t) in
  let full_throttle_pct := pct (fun x => x >=? 95) throttle in
  let lift_coast_pct := pct (fun x => x <=? 20) throttle in
  let brake_energy :=
    if (0 <? length brake)%nat && (0 <? length speed)%nat
    then sumQ (mul_arrays brake speed) / 1000 else 0 in
  let energy_recovery := brake_energy * (65 # 100) in
  let pu_stress :=
    Qmin 100 (full_throttle_pct * (8 # 10) + (100 - lift_coast_pct) * (2 # 10)) in
  let fuel_efficiency := (8 # 10) + lift_coast_pct / 100 * (3 # 10) in
  let efficiency_score :=
    (100 - lift_coast_pct) * (6 # 10) + energy_recovery / 100 * (4 # 10) in
  {| energyFullThrottlePct := full_throttle_pct;
     liftAndCoastPct := lift_coast_pct;
     estimatedBrakeEnergy := brake_energy;
     estimatedEnergyRecovery := energy_recovery;
     efficiencyScore := Qmin 100 (Qmax 0 efficiency_score);
     ersDeployment := if full_throttle_pct >? 70 then high
                      else if full_throttle_pct >? 50 then ers_medium
                      else low;
     puStress := pu_stress;
     fuelEfficiency := fuel_efficiency |}.

(** ** The lap table

    One row of [session.laps]: [LapTime] is [None] for NaT (its value is
    [total_seconds()]), [Compound] is [None] for a missing compound. *)

Record lap : Type := {
  Driver : string;
  LapNumber : Z;
  LapTime : option Q;
  Compound : option string;
}.

(** [session.laps[session.laps['Driver'] == driver]]. *)
Definition laps_of (session_laps : list lap) (driver : string) : list lap :=
  filter (fun l => String.eqb (Driver l) driver) session_laps.

(** [dropna(subset=['LapTime'])]. *)
Definition is_some {A : Type} (o : option A) : bool :=
  match o with Some _ => true | None => false end.

Definition dropna_LapTime (ls : list lap) : list lap :=
  filter (fun l => is_some (LapTime l)) ls.

(** [ls['LapTime'].apply(lambda x: x.total_seconds()).values]: the times of
    the laps that have one. *)
Definition times_of (ls : list lap) : list Q :=
  flat_map (fun l => match LapTime l with Some t => [t] | None => [] end) ls.

(** [str.upper] on ASCII text. *)
Definition upper_ascii (c : ascii) : ascii :=
  let n := nat_of_ascii c in
  if ((97 <=? n) && (n <=? 122))%nat then ascii_of_nat (n - 32) else c.

Fixpoint upper (s : string) : string :=
  match s with
  | EmptyString => EmptyString
  | String c rest => String (upper_ascii c) (upper rest)
  end.

(** ** Tire degradation ([get_tire_degradation], [calculate_degradation]) *)

Record stint_lap : Type := {
  lapNumber : Z;
  time : Q;
}.

Record tire_stint : Type := {
  compound : option string;   (* [current_compound]: [None] or a string *)
  laps : list stint_lap;
  avgLapTime : Q;
  degradation : Q;
}.

(** Lines 299-305. *)
Definition calculate_degradation (stint_laps : list stint_lap) : Q :=
  if (length stint_laps <? 3)%nat then 0
  else
    let times := map time stint_laps in
    (last times 0 - hd 0 times) / QofN (length times).

(** The dict literal appended at lines 270-275 and 285-290. *)
Definition make_stint (current_compound : option string)
    (stint_laps : list stint_lap) : tire_stint :=
  {| compound := current_compound;
     laps := stint_laps;
     avgLapTime := mean (map time stint_laps);
     degradation := calculate_degradation stint_laps |}.

(** [if stint_laps: tire_stints.append(...)]. *)
Definition flush (tire_stints : list tire_stint)
    (current_compound : option string) (stint_laps : list stint_lap)
  : list tire_stint :=
  match stint_laps with
  | [] => tire_stints
  | _ => tire_stints ++ [make_stint current_compound stint_laps]
  end.

Definition same_compound (compound : string) (current : option string) : bool :=
  match current with
  | Some c => String.eqb compound c
  | None => false
  end.

(** Lines 264-290: the loop over the driver's laps, then the final flush. *)
Fixpoint stint_loop (driver_laps : list lap) (tire_stints : list tire_stint)
    (current_compound : option string) (stint_laps : list stint_lap)
  : list tire_stint :=
  match driver_laps with
  | [] => flush tire_stints current_compound stint_laps
  | l :: rest =>
      match Compound l, LapTime l with
      | Some c, Some t =>
          let compound := upper c in
          let entry := {| lapNumber := LapNumber l; time := t |} in
          if negb (same_compound compound current_compound) then
            stint_loop rest (flush tire_stints current_compound stint_laps)
              (Some compound) [entry]
          else
            stint_loop rest tire_stints current_compound (stint_laps ++ [entry])
      | _, _ => stint_loop rest tire_stints current_compound stint_laps
      end
  end.

(** Lines 258-295; the result is the ['stints'] list. *)
Definition get_tire_degradation (session_laps : list lap) (driver : string)
  : list tire_stint :=
  stint_loop (laps_of session_laps driver) [] None [].

(** ** Fuel effect ([get_fuel_effect]) *)

(** [np.polyfit(xs, ys, 1)]: the coefficients (slope, intercept) of the
    least-squares line, by the normal equations.  When all [xs] are equal
    the problem is rank deficient: numpy answers its minimum-norm solution,
    this definition the horizontal line through the mean; both minimise the
    squared error ([polyfit1_least_squares]). *)
Definition polyfit1 (xs ys : list Q) : Q * Q :=
  let n := QofN (length xs) in
  let sx := sumQ xs in
  let sy := sumQ ys in
  let sxx := sumQ (map (fun x => x * x) xs) in
  let sxy := sumQ (mul_arrays xs ys) in
  let slope := (n * sxy - sx * sy) / (n * sxx - sx * sx) in
  (slope, (sy - slope * sx) / n).

Inductive fuel_effect : Type :=
| FuelEffect (fuelEffect : Q)                          (* line 618 *)
| FuelTrend (fuelEffectPerLap totalFuelEffect : Q).    (* lines 630-634 *)

(** Lines 614-634. *)
Definition get_fuel_effect (session_laps : list lap) (driver : string)
  : fuel_effect :=
  let driver_laps := laps_of session_laps driver in
  let valid_laps := dropna_LapTime driver_laps in
  if (length valid_laps <? 5)%nat then FuelEffect 0
  else
    let lap_times := times_of valid_laps in
    let lap_numbers := map (fun l => inject_Z (LapNumber l)) valid_laps in
    let fuel_effect_per_lap :=
      if (1 <? length lap_times)%nat
      then fst (polyfit1 lap_numbers lap_times) else 0 in
    FuelTrend fuel_effect_per_lap
              (fuel_effect_per_lap * QofN (length lap_times)).

(** ** Race pace ([get_race_pace]) *)

Record pace : Type := {
  driver : string;
  avgPace : Q;
  medianPace : Q;
  bestPace : Q;
  totalLaps : nat;
}.

(** [Series.median]: the middle value, or the mean of the two middle ones. *)
Definition median (xs : list Q) : Q :=
  let a := sortQ xs in
  let n := length xs in
  if Nat.even n then (nth (n / 2 - 1) a 0 + nth (n / 2) a 0) / 2
  else nth (n / 2) a 0.

(** [Series.min] of a non-empty series. *)
Definition minQ (xs : list Q) : Q :=
  match xs with
  | [] => 0
  | x :: rest => fold_left Qmin rest x
  end.

(** Lines 336-351: [for driver in drivers]. *)
Fixpoint pace_loop (session_laps : list lap) (drivers : list string)
    (pace_data : list pace) : list pace :=
  match drivers with
  | [] => pace_data
  | d :: rest =>
      let driver_laps := laps_of session_laps d in
      let valid_laps := dropna_LapTime driver_laps in
      if (0 <? length valid_laps)%nat then
        let times := times_of valid_laps in
        pace_loop session_laps rest
          (pace_data ++ [{| driver := d;
                           avgPace := mean times;
                           medianPace := median times;
                           bestPace := minQ times;
                           totalLaps := length valid_laps |}])
      else pace_loop session_laps rest pace_data
  end.

(** Lines 334-353; the result is the ['paceComparison'] list. *)
Definition get_race_pace (session_laps : list lap) (drivers : list string)
  : list pace :=
  pace_loop session_laps drivers [].

(** ** Gear usage ([get_gear_usage])

    The [nGear] column holds integers. *)

(** [np.sum(gear == g) / len(gear) * 100 if len(gear) > 0 else 0]. *)
Definition gear_pct (gear : list Z) (g : Z) : Q :=
  if (0 <? length gear)%nat
  then QofN (length (filter (fun x => Z.eqb x g) gear)) / QofN (length gear) * 100
  else 0.

(** Lines 592-598: the dict [gear_usage], as the list of its items
    [(g, gear_usage[f'gear{g}'])] for [g in range(1, 9)]. *)
Definition get_gear_usage (nGear : option (list Z)) : list (Z * Q) :=
  let gear := match nGear with Some xs => xs | None => [] end in
  map (fun g => (g, gear_pct gear g)) [1; 2; 3; 4; 5; 6; 7; 8]%Z.

(** ** Tire-wear heuristics (command [tire-analysis] of [main]) *)

Inductive tire_performance : Type := optimal | degraded | critical.

Record tire_wear : Type := {
  performance : tire_performance;
  estimatedLifeRemaining : Z;
  tempImpact : Q;
  wearLevel : Q;
}.

(** Lines 807-810, for the integer [tire_age] of line 794. *)
Definition tire_wear_of (tire_age : Z) : tire_wear :=
  {| performance := if (tire_age <? 10)%Z then optimal
                    else if (tire_age <? 20)%Z then degraded
                    else critical;
     estimatedLifeRemaining := Z.max 0 (30 - tire_age);
     tempImpact := Qmin 100 (inject_Z tire_age * (25 # 10));
     wearLevel := Qmin 100 (inject_Z tire_age / 30 * 100) |}.

(** ** Command dispatch ([main])

    What [main] does with [sys.argv] before any data is fetched: the
    handler it calls with the arguments it passes, or the exception it
    raises inside its [try] block. *)

Inductive call : Type :=
| call_session (year gp session_type : string) (drivers : option (list string))
| call_telemetry (year gp session_type driver1 lap1 : string)
                 (driver2 lap2 : option string)
| call_gps (year : string)
| call_tire_degradation (year gp session_type driver : string)
| call_race_pace (year gp session_type : string) (drivers : list string)
| call_corner_analysis (year gp session_type driver lap_number : string)
| call_gear_usage (year gp session_type driver lap_number : string)
| call_fuel_effect (year gp session_type driver : string)
| call_downforce_analysis (year gp session_type driver lap_number : string)
| call_brake_analysis (year gp session_type driver lap_number : string)
| call_throttle_trace (year gp session_type driver lap_number : string)
| call_tire_analysis (year gp session_type driver lap_number : string)
| call_energy_analysis (year gp session_type driver lap_number : string).

Inductive dispatched : Type :=
| MainUsage                       (* lines 639-641: usage printed, exit 1 *)
| Call (c : call)
| Exception (message : string)    (* [raise Exception(message)] *)
| ArgvIndexError.                 (* [sys.argv[k]] out of range *)

(** [sys.argv[k]], then the rest. *)
Definition arg (argv : list string) (k : nat) (rest : string -> dispatched)
  : dispatched :=
  match nth_error argv k with
  | Some v => rest v
  | None => ArgvIndexError
  end.

(** [sys.argv[k] if len(sys.argv) > k else None], then the rest. *)
Definition optional_arg (argv : list string) (k : nat)
    (rest : option string -> dispatched) : dispatched :=
  if (k <? length argv)%nat then arg argv k (fun v => rest (Some v))
  else rest None.

(** The commands that take [<year> <gp> <session_type> <driver>]. *)
Definition four_args (argv : list string) (usage : string)
    (handler : string -> string -> string -> string -> call) : dispatched :=
  if (length argv <? 6)%nat then Exception usage
  else
    arg argv 2 (fun year => arg argv 3 (fun gp => arg argv 4 (fun session_type =>
    arg argv 5 (fun driver => Call (handler year gp session_type driver))))).

(** The commands that take [<year> <gp> <session_type> <driver> <lap>]. *)
Definition five_args (argv : list string) (usage : string)
    (handler : string -> string -> string -> string -> string -> call)
  : dispatched :=
  if (length argv <? 7)%nat then Exception usage
  else
    arg argv 2 (fun year => arg argv 3 (fun gp => arg argv 4 (fun session_type =>
    arg argv 5 (fun driver => arg argv 6 (fun lap_number =>
    Call (handler year gp session_type driver lap_number)))))).

(** Lines 639-872. *)
Definition dispatch (argv : list string) : dispatched :=
  if (length argv <? 2)%nat then MainUsage
  else
    arg argv 1 (fun command =>
    if String.eqb command "session" then
      if (length argv <? 5)%nat
      then Exception "Usage: session <year> <gp> <session_type> [drivers...]"
      else
        arg argv 2 (fun year => arg argv 3 (fun gp => arg argv 4 (fun session_type =>
        let drivers := if (5 <? length argv)%nat then Some (skipn 5 argv) else None in
        Call (call_session year gp session_type drivers))))
    else if String.eqb command "telemetry" then
      if (length argv <? 7)%nat
      then Exception "Usage: telemetry <year> <gp> <session_type> <driver1> <lap1> [driver2] [lap2]"
      else
        arg argv 2 (fun year => arg argv 3 (fun gp => arg argv 4 (fun session_type =>
        arg argv 5 (fun driver1 => arg argv 6 (fun lap1 =>
        optional_arg argv 7 (fun driver2 => optional_arg argv 8 (fun lap2 =>
        Call (call_telemetry year gp session_type driver1 lap1 driver2 lap2))))))))
    else if String.eqb command "gps" then
      if (length argv <? 3)%nat then Exception "Usage: gps <year>"
      else arg argv 2 (fun year => Call (call_gps year))
    else if String.eqb command "tire-degradation" then
      four_args argv "Usage: tire-degradation <year> <gp> <session_type> <driver>"
                call_tire_degradation
    else if String.eqb command "race-pace" then
      if (length argv <? 6)%nat
      then Exception "Usage: race-pace <year> <gp> <session_type> <driver1> [driver2...]"
      else
        arg argv 2 (fun year => arg argv 3 (fun gp => arg argv 4 (fun session_type =>
        Call (call_race_pace year gp session_type (skipn 5 argv)))))
    else if String.eqb command "corner-analysis" then
      five_args argv "Usage: corner-analysis <year> <gp> <session_type> <driver> <lap>"
                call_corner_analysis
    else if String.eqb command "gear-usage" then
      five_args argv "Usage: gear-usage <year> <gp> <session_type> <driver> <lap>"
                call_gear_usage
    else if String.eqb command "fuel-effect" then
      four_args argv "Usage: fuel-effect <year> <gp> <session_type> <driver>"
                call_fuel_effect
    else if String.eqb command "downforce-analysis" then
      five_args argv "Usage: downforce-analysis <year> <gp> <session_type> <driver> <lap>"
                call_downforce_analysis
    else if String.eqb command "brake-analysis" then
      five_args argv "Usage: brake-analysis <year> <gp> <session_type> <driver> <lap>"
                call_brake_analysis
    else if String.eqb command "throttle-trace" then
      five_args argv "Usage: throttle-trace <year> <gp> <session_type> <driver> <lap>"
                call_throttle_trace
    else if String.eqb command "tire-analysis" then
      five_args argv "Usage: tire-analysis <year> <gp> <session_type> <driver> <lap>"
                call_tire_analysis
    else if String.eqb command "energy-analysis" then
      five_args argv "Usage: energy-analysis <year> <gp> <session_type> <driver> <lap>"
                call_energy_analysis
    else Exception (String.append "Unknown command: " command))%string.

(* ================================================================== *)
(** * Part II: the vocabulary of the specification *)
(* ================================================================== *)

(** ** Sample series *)

(** Channels of one lap have the same length. *)
Definition co_indexed (speed distance brake throttle : list Q) : Prop :=
  length distance = length speed /\
  length brake = length speed /\
  length throttle = length speed.

Definition nondecreasing (xs : list Q) : Prop :=
  forall i j x y, (i <= j)%nat ->
    nth_error xs i = Some x -> nth_error xs j = Some y -> x <= y.

Fixpoint nondecreasingb (xs : list Q) : bool :=
  match xs with
  | x :: ((y :: _) as rest) => (x <=? y) && nondecreasingb rest
  | _ => true
  end.

Definition apex_distances (corners : list corner) : list Q :=
  map (fun c => apex_distance (apex c)) corners.

(** ** Brake point *)

(** Sample [j] brakes harder than the threshold of the corner detector. *)
Definition braking_at (brake : list Q) (j : nat) : Prop :=
  exists b, nth_error brake j = Some b /\ 25 < b.

(** The look-back window [[max(0, i-35), i)]. *)
Definition in_lookback (i j : nat) : Prop := (i - 35 <= j < i)%nat.

Definition first_brake_match (brake : list Q) (i j : nat) : Prop :=
  in_lookback i j /\ braking_at brake j /\
  forall k, in_lookback i k -> (k < j)%nat -> ~ braking_at brake k.

Definition last_brake_match (brake : list Q) (i j : nat) : Prop :=
  in_lookback i j /\ braking_at brake j /\
  forall k, in_lookback i k -> (j < k)%nat -> ~ braking_at brake k.

Definition no_brake_match (brake : list Q) (i : nat) : Prop :=
  forall k, in_lookback i k -> ~ braking_at brake k.

(** Corner [c] is detected at scan index [i]: the speed drop at [i] passes
    the test of line 388 and the candidate of [i] is accepted as [c]. *)
Definition detected_at (speed distance brake throttle : list Q)
    (i : nat) (c : corner) : Prop :=
  (20 < i)%nat /\
  (exists s, getitem speed i = Ok s /\
             Qlt_bool min_speed_drop (mean (slice speed (i - 10) i) - s) = true) /\
  exists a e,
    candidate speed distance brake throttle i (cornerNumber c)
      = Ok (Accepted c a e).

(** ** Brake zones *)

Definition over10 (brake : list Q) (k : nat) : Prop :=
  exists b, nth_error brake k = Some b /\ 10 < b.

(** [brake[s:e]] is a maximal contiguous run of samples above 10. *)
Definition maximal_run (brake : list Q) (s e : nat) : Prop :=
  (s < e <= length brake)%nat /\
  (forall k, (s <= k < e)%nat -> over10 brake k) /\
  (s = 0%nat \/ ~ over10 brake (s - 1)) /\
  ~ over10 brake e.

(** ** Throttle *)

(** The throttle crosses 50 upward at sample [i]. *)
Definition crossing (throttle : list Q) (i : nat) : Prop :=
  (1 <= i)%nat /\
  exists p c, nth_error throttle (i - 1) = Some p /\
              nth_error throttle i = Some c /\ p < 50 /\ 50 <= c.

(** A reported application point is the sample at index [i]. *)
Definition point_at (throttle distance : list Q)
    (p : throttle_point) (i : nat) : Prop :=
  getitem distance i = Ok (tp_distance p) /\
  getitem throttle i = Ok (throttleLevel p).

(** ** Stints *)

(** A lap the stint analyser keeps, with its compound in upper case. *)
Definition retained_entries (ls : list lap) : list (option string * stint_lap) :=
  flat_map (fun l =>
    match Compound l, LapTime l with
    | Some c, Some t =>
        [(Some (upper c), {| lapNumber := LapNumber l; time := t |})]
    | _, _ => []
    end) ls.

Definition stint_entries (s : tire_stint) : list (option string * stint_lap) :=
  map (fun e => (compound s, e)) (laps s).

Fixpoint adjacent_differ (stints : list tire_stint) : Prop :=
  match stints with
  | s1 :: ((s2 :: _) as rest) => compound s1 <> compound s2 /\ adjacent_differ rest
  | _ => True
  end.

(** ** Least squares *)

(** The sum of squared residuals of the line [y = a*x + b]. *)
Fixpoint sse (xs ys : list Q) (a b : Q) : Q :=
  match xs, ys with
  | x :: xs', y :: ys' =>
      (y - (a * x + b)) * (y - (a * x + b)) + sse xs' ys' a b
  | _, _ => 0
  end.

(** The sums of the normal equations of the line fit: the sum of squares,
    the dot product, the determinant and the numerator of the slope. *)
Definition sq (xs : list Q) : Q := sumQ (map (fun x => x * x) xs).

Definition dot (xs ys : list Q) : Q := sumQ (mul_arrays xs ys).

Definition normal_det (xs : list Q) : Q :=
  QofN (length xs) * sq xs - sumQ xs * sumQ xs.

Definition normal_num (xs ys : list Q) : Q :=
  QofN (length xs) * dot xs ys - sumQ xs * sumQ ys.

(** ** Race pace *)

Definition has_valid_lap (session_laps : list lap) (d : string) : bool :=
  existsb (fun l => String.eqb (Driver l) d && is_some (LapTime l)) session_laps.

(** ** The invariant of the brake-zone scan

    [spans] lists the index pairs [(zone_start, i)] behind the zones
    appended so far. *)

Definition zone_of (brake speed distance : list Q)
    (z : brake_zone) (se : nat * nat) : Prop :=
  zone_record brake speed distance (fst se) (snd se) = Ok z.

Definition long_run (brake : list Q) (se : nat * nat) : Prop :=
  maximal_run brake (fst se) (snd se) /\ (5 < snd se - fst se)%nat.

Definition before (a b : nat * nat) : Prop := (snd a < fst b)%nat.

Record brake_inv (brake speed distance : list Q) (i : nat)
    (in_brake_zone : bool) (zone_start : nat)
    (zones : list brake_zone) (spans : list (nat * nat)) : Prop := {
  inv_zones : Forall2 (zone_of brake speed distance) zones spans;
  inv_runs : Forall (long_run brake) spans;
  inv_order : StronglySorted before spans;
  inv_bound :
    Forall (fun se => (snd se < if in_brake_zone then zone_start else i)%nat) spans;
  inv_complete :
    forall s e, maximal_run brake s e -> (5 < e - s)%nat -> (e < i)%nat ->
                In (s, e) spans;
  inv_state :
    if in_brake_zone
    then (zone_start < i)%nat /\
         (forall k, (zone_start <= k < i)%nat -> over10 brake k) /\
         (zone_start = 0%nat \/ ~ over10 brake (zone_start - 1))
    else i = 0%nat \/ ~ over10 brake (i - 1);
}.

(** ** Corner exit and corner spacing *)

(** Sample [k] satisfies the exit test for the apex at [a]. *)
Definition exits_at (speed throttle : list Q) (a k : nat) : Prop :=
  exists tv sv sa,
    nth_error throttle k = Some tv /\ nth_error speed k = Some sv /\
    nth_error speed a = Some sa /\ 60 < tv /\ sa + 15 < sv.

(** Two apex distances more than [min_corner_distance] apart. *)
Definition spaced (x y : Q) : Prop := x + min_corner_distance < y.

(** The frame [t] without its speed column. *)
Definition without_Speed (t : telemetry) : telemetry :=
  {| Speed := None; Distance := Distance t; Brake := Brake t; Throttle := Throttle t |}.

(* ================================================================== *)
(** * Part III: sample laps *)
(* ================================================================== *)

Definition absdiff (a b : nat) : nat := (a - b) + (b - a).

(** A lap of 220 samples, 10 distance units apart: flat out at 300 except
    for two corners with apex speed 100 at samples 55 and 155, the speed
    changing by 10 per sample around each apex; full brake from 22 samples
    before each apex up to it, full throttle elsewhere. *)
Definition lap_speed : list Q :=
  map (fun k => QofN (Nat.min 300
                  (Nat.min (100 + 10 * absdiff k 55) (100 + 10 * absdiff k 155))))
      (seq 0 220).

Definition lap_distance : list Q := map (fun k => QofN (10 * k)) (seq 0 220).

Definition braking (k : nat) : bool :=
  ((33 <=? k) && (k <=? 55) || (133 <=? k) && (k <=? 155))%nat.

Definition lap_brake : list Q :=
  map (fun k => if braking k then 100 else 0) (seq 0 220).

Definition lap_throttle : list Q :=
  map (fun k => if braking k then 0 else 100) (seq 0 220).

Definition sample_lap : telemetry :=
  {| Speed := Some lap_speed; Distance := Some lap_distance;
     Brake := Some lap_brake; Throttle := Some lap_throttle |}.

(** The scenario of the specification: constant speed 200 over 100 samples,
    no brake, no throttle, any distance column (or none). *)
Definition constant_lap (distance : option (list Q)) : telemetry :=
  {| Speed := Some (repeat 200 100); Distance := distance;
     Brake := Some (repeat 0 100); Throttle := Some (repeat 0 100) |}.

(** The two corners of the sample lap. *)
Definition sample_corner_1 : corner :=
  {| cornerNumber := 1;
     brakePoint := {| bp_distance := 330; bp_speed := 300; bp_brakeForce := 100 |};
     apex := {| apex_distance := 550; apex_minSpeed := 100 |};
     exit := {| exit_distance := 570; exit_speed := 120; exit_throttle := 100 |};
     speedDelta := 200;
     type := medium |}.

Definition sample_corner_2 : corner :=
  {| cornerNumber := 2;
     brakePoint := {| bp_distance := 1330; bp_speed := 300; bp_brakeForce := 100 |};
     apex := {| apex_distance := 1550; apex_minSpeed := 100 |};
     exit := {| exit_distance := 1570; exit_speed := 120; exit_throttle := 100 |};
     speedDelta := 200;
     type := medium |}.

(** The frame [t] without one of its columns. *)
Definition without_Distance (t : telemetry) : telemetry :=
  {| Speed := Speed t; Distance := None; Brake := Brake t; Throttle := Throttle t |}.

Definition without_Brake (t : telemetry) : telemetry :=
  {| Speed := Speed t; Distance := Distance t; Brake := None; Throttle := Throttle t |}.

Definition without_Throttle (t : telemetry) : telemetry :=
  {| Speed := Speed t; Distance := Distance t; Brake := Brake t; Throttle := None |}.

(** Seven samples from 50 to 350. *)
Definition spread_lap : telemetry :=
  {| Speed := Some [50; 100; 150; 200; 250; 300; 350];
     Distance := Some [0; 10; 20; 30; 40; 50; 60];
     Brake := Some [0; 0; 0; 0; 0; 0; 0];
     Throttle := Some [100; 100; 100; 100; 100; 100; 100] |}.

(** Eight samples with the brake above 10 on samples 1 to 5 only. *)
Definition short_zone_brake : list Q := [0; 20; 20; 20; 20; 20; 0; 0].

Definition short_zone_lap : telemetry :=
  {| Speed := Some [200; 190; 180; 170; 160; 150; 150; 150];
     Distance := Some [0; 10; 20; 30; 40; 50; 60; 70];
     Brake := Some short_zone_brake;
     Throttle := Some [0; 0; 0; 0; 0; 0; 0; 0] |}.

(** Three samples, the throttle opened on the last one. *)
Definition late_throttle : list Q := [0; 0; 100].

Definition late_throttle_lap : telemetry :=
  {| Speed := Some [100; 100; 100];
     Distance := Some [0; 10; 20];
     Brake := Some [0; 0; 0];
     Throttle := Some late_throttle |}.

(** The stint scenario of the specification: five laps on SOFT then five
    on MEDIUM for driver [d], laps 1 to 10, with the given lap times. *)
Definition scenario_lap (d : string) (n : Z) (t : Q) (c : string) : lap :=
  {| Driver := d; LapNumber := n; LapTime := Some t; Compound := Some c |}.

Definition scenario_laps (d : string) (a1 a2 a3 a4 a5 b1 b2 b3 b4 b5 : Q)
  : list lap :=
  [ scenario_lap d 1 a1 "SOFT"%string; scenario_lap d 2 a2 "SOFT"%string;
    scenario_lap d 3 a3 "SOFT"%string; scenario_lap d 4 a4 "SOFT"%string;
    scenario_lap d 5 a5 "SOFT"%string;
    scenario_lap d 6 b1 "MEDIUM"%string; scenario_lap d 7 b2 "MEDIUM"%string;
    scenario_lap d 8 b3 "MEDIUM"%string; scenario_lap d 9 b4 "MEDIUM"%string;
    scenario_lap d 10 b5 "MEDIUM"%string ].

Definition entry (n : Z) (t : Q) : stint_lap := {| lapNumber := n; time := t |}.

(** What the analysis says of one stint. *)
Definition stint_report_ok (s : tire_stint) : Prop :=
  laps s <> [] /\
  avgLapTime s = mean (map time (laps s)) /\
  ((length (laps s) < 3)%nat -> degradation s = 0) /\
  (forall first mid last,
     (3 <= length (laps s))%nat -> laps s = first :: mid ++ [last] ->
     degradation s = (time last - time first) / QofN (length (laps s))).

(** A session of three drivers: VER with two timed laps, HAM with none,
    LEC with one. *)
Definition pace_session : list lap :=
  [ {| Driver := "VER"%string; LapNumber := 1%Z; LapTime := Some 91; Compound := Some "SOFT"%string |};
    {| Driver := "HAM"%string; LapNumber := 1%Z; LapTime := None; Compound := Some "SOFT"%string |};
    {| Driver := "LEC"%string; LapNumber := 1%Z; LapTime := Some 92; Compound := None |};
    {| Driver := "VER"%string; LapNumber := 2%Z; LapTime := Some 90; Compound := Some "SOFT"%string |};
    {| Driver := "HAM"%string; LapNumber := 2%Z; LapTime := None; Compound := None |} ].

(** Six timed laps of VER, each a tenth faster than the one before, and a
    session with only three of them. *)
Definition fuel_lap (n : Z) (t : Q) : lap :=
  {| Driver := "VER"%string; LapNumber := n; LapTime := Some t;
     Compound := Some "HARD"%string |}.

Definition fuel_session : list lap :=
  [ fuel_lap 1 (999 # 10); fuel_lap 2 (998 # 10); fuel_lap 3 (997 # 10);
    fuel_lap 4 (996 # 10); fuel_lap 5 (995 # 10); fuel_lap 6 (994 # 10) ].

Definition short_session : list lap := firstn 3 fuel_session.

(* ================================================================== *)
(** * Part IV: properties *)
(* ================================================================== *)

(** ** Comparisons and subscripts *)

Lemma Qlt_bool_iff (x y : Q) : Qlt_bool x y = true <-> x < y.
Proof.
  unfold Qlt_bool. rewrite negb_true_iff.
  split; intro H.
  - apply Qnot_le_lt. intro Hle. apply Qle_bool_iff in Hle. congruence.
  - destruct (Qle_bool y x) eqn:E; [|reflexivity].
    apply Qle_bool_iff in E. exfalso. lra.
Qed.

Lemma Qlt_bool_false (x y : Q) : Qlt_bool x y = false <-> y <= x.
Proof.
  unfold Qlt_bool. rewrite negb_false_iff. apply Qle_bool_iff.
Qed.

Lemma Qle_bool_false (x y : Q) : Qle_bool x y = false <-> y < x.
Proof.
  rewrite <- Qlt_bool_iff. unfold Qlt_bool.
  destruct (Qle_bool x y); simpl; split; congruence.
Qed.

Lemma getitem_Ok (xs : list Q) (i : nat) (x : Q) :
  getitem xs i = Ok x <-> nth_error xs i = Some x.
Proof.
  unfold getitem. destruct (nth_error xs i); split; congruence.
Qed.

Lemma getitem_lt (xs : list Q) (i : nat) :
  (i < length xs)%nat -> exists x, getitem xs i = Ok x.
Proof.
  intro H. unfold getitem.
  destruct (nth_error xs i) as [x|] eqn:E; [now exists x|].
  apply nth_error_None in E. lia.
Qed.

Lemma getitem_bound (xs : list Q) (i : nat) (x : Q) :
  getitem xs i = Ok x -> (i < length xs)%nat.
Proof.
  intro H. apply getitem_Ok in H. apply nth_error_Some. congruence.
Qed.

(** Inversion of a successful [bind]. *)
Lemma bind_Ok {A B : Type} (m : result A) (k : A -> result B) (b : B) :
  bind m k = Ok b -> exists a, m = Ok a /\ k a = Ok b.
Proof.
  destruct m; simpl; intro H; try discriminate. now exists a.
Qed.

Ltac inv_bind H :=
  let x := fresh "x" in
  let Hx := fresh "Hx" in
  apply bind_Ok in H; destruct H as (x & Hx & H).

(** Run a subscript that is known to be in range. *)
Ltac run_getitem xs i :=
  let x := fresh "v" in
  let Hx := fresh "Hv" in
  destruct (@getitem_lt xs i) as [x Hx]; [try lia | rewrite Hx; cbn [bind]].

(** ** The inner loops of the corner detector *)

Lemma brake_point_loop_spec (brake : list Q) (n j dflt : nat) :
  (j + n <= length brake)%nat ->
  exists k, brake_point_loop brake j n dflt = Ok k /\
    (((j <= k < j + n)%nat /\ braking_at brake k /\
      forall m, (j <= m < k)%nat -> ~ braking_at brake m)
     \/ (k = dflt /\ forall m, (j <= m < j + n)%nat -> ~ braking_at brake m)).
Proof.
  revert j. induction n as [|n IH]; intros j Hlen; cbn [brake_point_loop].
  - exists dflt. split; [reflexivity|]. right. split; [reflexivity|]. intros; lia.
  - run_getitem brake j.
    destruct (Qlt_bool 25 v) eqn:E.
    + exists j. split; [reflexivity|]. left.
      split; [lia|]. split; [|intros; lia].
      exists v. split; [now apply getitem_Ok|now apply Qlt_bool_iff].
    + assert (Hj : ~ braking_at brake j).
      { intros (b & Hb & Hlt). apply getitem_Ok in Hv.
        assert (b = v) by congruence. subst b.
        apply Qlt_bool_false in E. lra. }
      destruct (IH (S j)) as (k & Hk & Hspec); [lia|].
      exists k. split; [exact Hk|].
      destruct Hspec as [(Hr & Hb & Hfirst) | (Hd & Hnone)].
      * left. split; [lia|]. split; [exact Hb|].
        intros m Hm. destruct (Nat.eq_dec m j) as [->|]; [exact Hj|].
        apply Hfirst. lia.
      * right. split; [exact Hd|].
        intros m Hm. destruct (Nat.eq_dec m j) as [->|]; [exact Hj|].
        apply Hnone. lia.
Qed.

Lemma brake_point_idx_spec (brake : list Q) (i : nat) :
  (i <= length brake)%nat ->
  exists j, brake_point_idx brake i = Ok j /\
    (first_brake_match brake i j \/ (j = i /\ no_brake_match brake i)).
Proof.
  intro Hlen. unfold brake_point_idx.
  destruct (@brake_point_loop_spec brake (i - (i - 35)) (i - 35) i)
    as (k & Hk & Hspec); [lia|].
  exists k. split; [exact Hk|].
  unfold first_brake_match, no_brake_match, in_lookback.
  destruct Hspec as [(Hr & Hb & Hfirst) | (Hd & Hnone)].
  - left. split; [lia|]. split; [exact Hb|].
    intros m Hm Hlt. apply Hfirst. lia.
  - right. split; [exact Hd|]. intros m Hm. apply Hnone. lia.
Qed.

Lemma apex_loop_bounds (speed : list Q) (n j a : nat) (ms : Q) :
  (j + n <= length speed)%nat ->
  exists k, apex_loop speed j n a ms = Ok k /\ (k = a \/ (j <= k < j + n)%nat).
Proof.
  revert j a ms. induction n as [|n IH]; intros j a ms Hlen; cbn [apex_loop].
  - exists a. auto.
  - run_getitem speed j.
    destruct (Qlt_bool v ms).
    + destruct (IH (S j) j v) as (k & Hk & Hb); [lia|].
      exists k. split; [exact Hk|]. right. lia.
    + destruct (IH (S j) a ms) as (k & Hk & Hb); [lia|].
      exists k. split; [exact Hk|]. destruct Hb; [now left|right; lia].
Qed.

Lemma find_apex_bounds (speed : list Q) (i : nat) :
  (i < length speed)%nat ->
  exists a, find_apex speed i = Ok a /\ (i <= a < length speed)%nat.
Proof.
  intro Hi. unfold find_apex. run_getitem speed i.
  destruct (@apex_loop_bounds speed (Nat.min (i + 40) (length speed) - i) i i v)
    as (k & Hk & Hb); [lia|].
  exists k. split; [exact Hk|lia].
Qed.

Lemma exit_loop_bounds (speed throttle : list Q) (a n j dflt : nat) :
  length throttle = length speed ->
  (a < length speed)%nat ->
  (j + n <= length speed)%nat ->
  exists k, exit_loop speed throttle a j n dflt = Ok k /\
            (k = dflt \/ (j <= k < j + n)%nat).
Proof.
  intros Hco Ha. revert j. induction n as [|n IH]; intros j Hlen; cbn [exit_loop].
  - exists dflt. auto.
  - assert (Hnext : exists k, exit_loop speed throttle a (S j) n dflt = Ok k /\
                         (k = dflt \/ (j <= k < j + S n)%nat)).
    { destruct (IH (S j)) as (k & Hk & Hb); [lia|].
      exists k. split; [exact Hk|]. destruct Hb; [now left|right; lia]. }
    run_getitem throttle j.
    destruct (Qlt_bool 60 v); [|exact Hnext].
    run_getitem speed j. run_getitem speed a.
    destruct (Qlt_bool (v1 + 15) v0); [|exact Hnext].
    exists j. split; [reflexivity|]. right. lia.
Qed.

Lemma find_exit_bounds (speed throttle : list Q) (a : nat) :
  length throttle = length speed ->
  (a < length speed)%nat ->
  exists e, find_exit speed throttle a = Ok e /\ (a <= e < length speed)%nat.
Proof.
  intros Hco Ha. unfold find_exit.
  destruct (@exit_loop_bounds speed throttle a
              (Nat.min (a + 40) (length speed) - a) a a Hco Ha)
    as (k & Hk & Hb); [lia|].
  exists k. split; [exact Hk|lia].
Qed.

(** ** The corner detector on co-indexed channels *)

Lemma corner_data_inv (speed distance brake throttle : list Q)
    (number j a e : nat) (delta : Q) (c : corner) :
  corner_data speed distance brake throttle number j a e delta = Ok c ->
  cornerNumber c = number /\
  getitem distance j = Ok (bp_distance (brakePoint c)) /\
  getitem speed j = Ok (bp_speed (brakePoint c)) /\
  getitem brake j = Ok (bp_brakeForce (brakePoint c)) /\
  getitem distance a = Ok (apex_distance (apex c)) /\
  getitem speed a = Ok (apex_minSpeed (apex c)).
Proof.
  unfold corner_data. intro H.
  do 8 inv_bind H. injection H as <-. cbn.
  repeat split; assumption.
Qed.

Lemma candidate_inv (speed distance brake throttle : list Q)
    (i number : nat) (c : corner) (a e : nat) :
  candidate speed distance brake throttle i number = Ok (Accepted c a e) ->
  exists j delta,
    brake_point_idx brake i = Ok j /\
    find_apex speed i = Ok a /\
    find_exit speed throttle a = Ok e /\
    corner_data speed distance brake throttle number j a e delta = Ok c.
Proof.
  unfold candidate. intro H.
  do 5 inv_bind H.
  destruct (Qlt_bool 25 (x2 - x3)); [|discriminate].
  inv_bind H. injection H as <- <- <-.
  exists x, (x2 - x3). repeat split; assumption.
Qed.

Lemma StronglySorted_snoc {A : Type} (R : A -> A -> Prop) (l : list A) (x : A) :
  StronglySorted R l -> Forall (fun y => R y x) l -> StronglySorted R (l ++ [x]).
Proof.
  induction 1 as [|y l Hs IH Hy]; intro Hall; cbn.
  - repeat constructor.
  - inversion Hall; subst. constructor; [now apply IH|].
    apply Forall_app. split; [exact Hy|]. now constructor.
Qed.

Section CornerDetector.

Variables speed distance brake throttle : list Q.
Hypothesis Hco : co_indexed speed distance brake throttle.

Lemma corner_data_ok (number j a e : nat) (delta : Q) :
  (j < length speed)%nat -> (a < length speed)%nat -> (e < length speed)%nat ->
  exists c, corner_data speed distance brake throttle number j a e delta = Ok c.
Proof.
  destruct Hco as (Hd & Hb & Ht). intros Hj Ha He. unfold corner_data.
  run_getitem distance j. run_getitem speed j. run_getitem brake j.
  run_getitem distance a. run_getitem speed a.
  run_getitem distance e. run_getitem speed e. run_getitem throttle e.
  eexists. reflexivity.
Qed.

(** A candidate inside the scanned range is processed without error; an
    accepted one has its apex at or after the scan index and its exit at
    or after the apex. *)
Lemma candidate_ok (i number : nat) :
  (i < length speed)%nat ->
  exists st, candidate speed distance brake throttle i number = Ok st /\
    match st with
    | Accepted c a e =>
        (i <= a <= e)%nat /\ (e < length speed)%nat /\
        cornerNumber c = number /\
        getitem distance a = Ok (apex_distance (apex c))
    | Rejected => True
    end.
Proof.
  pose proof Hco as (Hd & Hb & Ht). intro Hi. unfold candidate.
  destruct (@brake_point_idx_spec brake i) as (j & Hj & Hjspec); [lia|].
  assert (Hji : (j <= i)%nat).
  { destruct Hjspec as [((? & ?) & _) | (-> & _)]; lia. }
  rewrite Hj; cbn [bind].
  destruct (@find_apex_bounds speed i Hi) as (a & Ha & Hab).
  rewrite Ha; cbn [bind].
  destruct (@find_exit_bounds speed throttle a Ht) as (e & He & Heb); [lia|].
  rewrite He; cbn [bind].
  run_getitem speed j. run_getitem speed a.
  destruct (Qlt_bool 25 (v - v0)); [|now exists Rejected].
  destruct (@corner_data_ok number j a e (v - v0)) as [c Hc]; try lia.
  rewrite Hc; cbn [bind].
  exists (Accepted c a e). split; [reflexivity|].
  apply corner_data_inv in Hc. intuition lia.
Qed.

Hypothesis Hmono : nondecreasing distance.

(** The loop invariant: the corners found so far are numbered from 1,
    their apex distances increase strictly and none exceeds
    [last_corner_dist]; the remaining fuel covers the remaining scan. *)
Lemma corner_loop_spec (fuel : nat) :
  forall (i : nat) (corners : list corner) (last : Q),
    (length speed - 40 - i < fuel)%nat ->
    map cornerNumber corners = seq 1 (length corners) ->
    StronglySorted Qlt (apex_distances corners) ->
    Forall (fun d => d <= last) (apex_distances corners) ->
    exists cs,
      corner_loop fuel speed distance brake throttle i corners last = Ok cs /\
      map cornerNumber cs = seq 1 (length cs) /\
      StronglySorted Qlt (apex_distances cs).
Proof.
  pose proof Hco as (Hd & Hb & Ht).
  induction fuel as [|fuel IH]; intros i corners last Hfuel Hnum Hsorted Hlast;
    [lia|].
  cbn [corner_loop].
  destruct (i + 40 <? length speed)%nat eqn:Hscan;
    [apply Nat.ltb_lt in Hscan | now exists corners].
  destruct (20 <? i)%nat; [|apply IH; auto; lia].
  run_getitem speed i.
  destruct (Qlt_bool min_speed_drop (mean (slice speed (i - 10) i) - v));
    [|apply IH; auto; lia].
  run_getitem distance i.
  destruct (Qlt_bool min_corner_distance (v0 - last)) eqn:Hfar;
    [|apply IH; auto; lia].
  apply Qlt_bool_iff in Hfar. unfold min_corner_distance in Hfar.
  destruct (@candidate_ok i (length corners + 1)) as (st & Hst & Hspec); [lia|].
  rewrite Hst; cbn [bind].
  destruct st as [c a e|]; [|apply IH; auto; lia].
  destruct Hspec as (Hiae & He & Hc & Ha).
  rewrite Ha; cbn [bind].
  assert (Hnew : v0 <= apex_distance (apex c)).
  { apply (Hmono (i := i) (j := a)); [lia| |]; now apply getitem_Ok. }
  apply IH.
  - lia.
  - rewrite map_app, length_app, seq_app, Hnum. cbn. now rewrite Hc, Nat.add_comm.
  - unfold apex_distances in *. rewrite map_app. cbn.
    apply StronglySorted_snoc; [exact Hsorted|].
    eapply Forall_impl; [|exact Hlast]. cbn. intros d Hdl. lra.
  - unfold apex_distances in *. rewrite map_app. cbn.
    apply Forall_app. split.
    + eapply Forall_impl; [|exact Hlast]. cbn. intros d Hdl. lra.
    + constructor; [lra|constructor].
Qed.

End CornerDetector.

Lemma nondecreasingb_sound (xs : list Q) :
  nondecreasingb xs = true -> nondecreasing xs.
Proof.
  intro H.
  assert (Hstep : forall i x y, nth_error xs i = Some x ->
                   nth_error xs (S i) = Some y -> x <= y).
  { revert H. induction xs as [|a [|b rest] IH]; intros H i x y Hx Hy.
    - destruct i; discriminate.
    - destruct i as [|[|i]]; discriminate.
    - cbn [nondecreasingb] in H. apply andb_true_iff in H as [Hab Hrest].
      destruct i as [|i].
      + cbn in Hx, Hy. injection Hx as <-. injection Hy as <-.
        now apply Qle_bool_iff.
      + apply (IH Hrest i); assumption. }
  intros i j x y Hij. revert y.
  induction Hij as [|j Hij IH]; intros y Hx Hy.
  - assert (x = y) by congruence. subst. lra.
  - destruct (nth_error xs j) as [z|] eqn:Hz.
    + specialize (IH z Hx eq_refl). specialize (Hstep j z y Hz Hy). lra.
    + apply nth_error_None in Hz.
      assert (nth_error xs (S j) <> None) by congruence.
      apply nth_error_Some in H0. lia.
Qed.

Lemma brake_point_loop_inv (brake : list Q) (n j dflt k : nat) :
  brake_point_loop brake j n dflt = Ok k ->
  ((j <= k < j + n)%nat /\ braking_at brake k /\
   forall m, (j <= m < k)%nat -> ~ braking_at brake m)
  \/ (k = dflt /\ forall m, (j <= m < j + n)%nat -> ~ braking_at brake m).
Proof.
  revert j. induction n as [|n IH]; intros j H; cbn [brake_point_loop] in H.
  - injection H as <-. right. split; [reflexivity|]. intros; lia.
  - inv_bind H. destruct (Qlt_bool 25 x) eqn:E.
    + injection H as <-. left. split; [lia|]. split; [|intros; lia].
      exists x. split; [now apply getitem_Ok|now apply Qlt_bool_iff].
    + assert (Hj : ~ braking_at brake j).
      { intros (b & Hb & Hlt). apply getitem_Ok in Hx.
        assert (b = x) by congruence. subst b.
        apply Qlt_bool_false in E. lra. }
      destruct (IH _ H) as [(Hr & Hb & Hfirst) | (Hd & Hnone)].
      * left. split; [lia|]. split; [exact Hb|].
        intros m Hm. destruct (Nat.eq_dec m j) as [->|]; [exact Hj|].
        apply Hfirst. lia.
      * right. split; [exact Hd|].
        intros m Hm. destruct (Nat.eq_dec m j) as [->|]; [exact Hj|].
        apply Hnone. lia.
Qed.

Lemma brake_point_idx_inv (brake : list Q) (i j : nat) :
  brake_point_idx brake i = Ok j ->
  first_brake_match brake i j \/ (j = i /\ no_brake_match brake i).
Proof.
  unfold brake_point_idx. intro H. apply brake_point_loop_inv in H.
  unfold first_brake_match, no_brake_match, in_lookback.
  destruct H as [(Hr & Hb & Hfirst) | (Hd & Hnone)].
  - left. split; [lia|]. split; [exact Hb|].
    intros m Hm Hlt. apply Hfirst. lia.
  - right. split; [exact Hd|]. intros m Hm. apply Hnone. lia.
Qed.

(** C7. On co-indexed channels with a non-decreasing distance series the
    corner detector returns a list of corners whose apex distances increase
    strictly and whose corner numbers are 1, 2, 3, ... *)
Theorem corners_increasing_and_numbered (speed distance brake throttle : list Q) :
  co_indexed speed distance brake throttle ->
  nondecreasing distance ->
  exists corners,
    get_corner_analysis {| Speed := Some speed; Distance := Some distance;
                           Brake := Some brake; Throttle := Some throttle |}
      = Ok corners /\
    StronglySorted Qlt (apex_distances corners) /\
    map cornerNumber corners = seq 1 (length corners).
Proof.
  intros Hco Hmono. unfold get_corner_analysis, corner_scan. cbn [values Speed Distance Brake Throttle].
  destruct (@corner_loop_spec speed distance brake throttle Hco Hmono
              (S (length speed)) 30 [] (- min_corner_distance))
    as (cs & Hcs & Hnum & Hsorted).
  - lia.
  - reflexivity.
  - constructor.
  - constructor.
  - exists cs. auto.
Qed.

Lemma sample_lap_co_indexed : co_indexed lap_speed lap_distance lap_brake lap_throttle.
Proof.
  unfold co_indexed, lap_speed, lap_distance, lap_brake, lap_throttle.
  rewrite !length_map. auto.
Qed.

Lemma corners_increasing_and_numbered_witness :
  exists corners,
    get_corner_analysis sample_lap = Ok corners /\
    StronglySorted Qlt (apex_distances corners) /\
    map cornerNumber corners = seq 1 (length corners).
Proof.
  apply (@corners_increasing_and_numbered lap_speed lap_distance lap_brake lap_throttle).
  - exact sample_lap_co_indexed.
  - apply nondecreasingb_sound. vm_compute. reflexivity.
Defined.

Example sample_lap_corners :
  get_corner_analysis sample_lap = Ok [sample_corner_1; sample_corner_2].
Proof. vm_compute. reflexivity. Qed.

(** Every corner the scan adds was accepted by [candidate] at some scan
    index above 20, under its own corner number. *)
Lemma corner_loop_provenance (speed distance brake throttle : list Q) (fuel : nat) :
  forall (i : nat) (corners : list corner) (last : Q) (cs : list corner),
    corner_loop fuel speed distance brake throttle i corners last = Ok cs ->
    forall c, In c cs ->
      In c corners \/
      exists i' a e,
        (20 < i')%nat /\
        candidate speed distance brake throttle i' (cornerNumber c)
          = Ok (Accepted c a e).
Proof.
  induction fuel as [|fuel IH]; intros i corners last cs Hrun c Hin;
    [discriminate|].
  cbn [corner_loop] in Hrun.
  destruct (i + 40 <? length speed)%nat;
    [|injection Hrun as <-; now left].
  destruct (20 <? i)%nat eqn:Hi; [apply Nat.ltb_lt in Hi | now apply (IH _ _ _ _ Hrun)].
  inv_bind Hrun.
  destruct (Qlt_bool min_speed_drop _); [|now apply (IH _ _ _ _ Hrun)].
  inv_bind Hrun.
  destruct (Qlt_bool min_corner_distance _); [|now apply (IH _ _ _ _ Hrun)].
  inv_bind Hrun.
  destruct x1 as [c' a e|]; [|now apply (IH _ _ _ _ Hrun)].
  inv_bind Hrun.
  destruct (IH _ _ _ _ Hrun c Hin) as [Hold|Hnew]; [|now right].
  apply in_app_or in Hold as [Hold|[<-|[]]]; [now left|].
  right. exists i, a, e. split; [exact Hi|].
  pose proof Hx1 as Hnum. apply candidate_inv in Hnum as (j & delta & _ & _ & _ & Hc).
  apply corner_data_inv in Hc as (-> & _). exact Hx1.
Qed.

(** C4 (amended). Every reported corner was detected at some scan index
    [i], and its reported brake point is the sample at the first index of
    [[max(0, i-35), i)] whose brake value exceeds 25, or the sample at [i]
    itself when there is none. *)
Theorem brake_point_is_first_match
    (t : telemetry) (corners : list corner) (c : corner) :
  let speed := values (Speed t) in
  let distance := values (Distance t) in
  let brake := values (Brake t) in
  let throttle := values (Throttle t) in
  get_corner_analysis t = Ok corners ->
  In c corners ->
  exists i a e j,
    (20 < i)%nat /\
    candidate speed distance brake throttle i (cornerNumber c)
      = Ok (Accepted c a e) /\
    brake_point_idx brake i = Ok j /\
    (first_brake_match brake i j \/ (j = i /\ no_brake_match brake i)) /\
    getitem distance j = Ok (bp_distance (brakePoint c)) /\
    getitem speed j = Ok (bp_speed (brakePoint c)) /\
    getitem brake j = Ok (bp_brakeForce (brakePoint c)).
Proof.
  cbn zeta. unfold get_corner_analysis, corner_scan. intros Hrun Hin.
  destruct (corner_loop_provenance _ _ _ _ _ _ _ _ Hrun c Hin)
    as [[] | (i & a & e & Hi & Hcand)].
  pose proof Hcand as H.
  apply candidate_inv in H as (j & delta & Hj & _ & _ & Hc).
  apply corner_data_inv in Hc as (_ & Hd & Hs & Hb & _).
  exists i, a, e, j.
  split; [exact Hi|]. split; [exact Hcand|]. split; [exact Hj|].
  split; [now apply brake_point_idx_inv|].
  repeat split; assumption.
Qed.

Lemma brake_point_is_first_match_witness :
  exists i a e j,
    (20 < i)%nat /\
    candidate lap_speed lap_distance lap_brake lap_throttle i
      (cornerNumber sample_corner_1) = Ok (Accepted sample_corner_1 a e) /\
    brake_point_idx lap_brake i = Ok j /\
    (first_brake_match lap_brake i j \/ (j = i /\ no_brake_match lap_brake i)) /\
    getitem lap_distance j = Ok (bp_distance (brakePoint sample_corner_1)) /\
    getitem lap_speed j = Ok (bp_speed (brakePoint sample_corner_1)) /\
    getitem lap_brake j = Ok (bp_brakeForce (brakePoint sample_corner_1)).
Proof.
  apply (@brake_point_is_first_match sample_lap
           [sample_corner_1; sample_corner_2] sample_corner_1).
  - vm_compute. reflexivity.
  - left. reflexivity.
Defined.

(** The scan with its detection indices reports the corners of the scan. *)
Lemma corner_detections_corners (speed distance brake throttle : list Q) :
  forall (fuel i : nat) (detections : list (nat * corner)) (last : Q),
    corner_loop fuel speed distance brake throttle i (map snd detections) last
    = (log <- corner_detections fuel speed distance brake throttle
                i detections last ;;
       Ok (map snd log)).
Proof.
  induction fuel as [|fuel IH]; intros i detections last; [reflexivity|].
  cbn [corner_loop corner_detections].
  destruct (i + 40 <? length speed)%nat; [|reflexivity].
  destruct (20 <? i)%nat; [|apply IH].
  destruct (getitem speed i) as [speed_at| |]; cbn [bind]; try reflexivity.
  destruct (Qlt_bool min_speed_drop _); [|apply IH].
  destruct (getitem distance i) as [d| |]; cbn [bind]; try reflexivity.
  destruct (Qlt_bool min_corner_distance _); [|apply IH].
  rewrite length_map.
  destruct (candidate speed distance brake throttle i (length detections + 1))
    as [[c a e|]| |]; cbn [bind]; try reflexivity; [|apply IH].
  destruct (getitem distance a) as [l| |]; cbn [bind]; try reflexivity.
  rewrite <- IH, map_app. reflexivity.
Qed.

Lemma get_corner_detections_corners (t : telemetry) :
  get_corner_analysis t
  = (log <- get_corner_detections t ;; Ok (map snd log)).
Proof.
  unfold get_corner_analysis, corner_scan, get_corner_detections.
  apply (@corner_detections_corners _ _ _ _ _ _ [] _).
Qed.

Lemma corner_detections_inv (speed distance brake throttle : list Q) :
  forall (fuel i : nat) (detections log : list (nat * corner)) (last : Q),
    corner_detections fuel speed distance brake throttle i detections last
      = Ok log ->
    forall k c, In (k, c) log ->
      In (k, c) detections \/ detected_at speed distance brake throttle k c.
Proof.
  induction fuel as [|fuel IH]; intros i detections log last Hrun k c Hin;
    [discriminate|].
  cbn [corner_detections] in Hrun.
  destruct (i + 40 <? length speed)%nat;
    [|injection Hrun as <-; now left].
  destruct (20 <? i)%nat eqn:Hi;
    [apply Nat.ltb_lt in Hi | now apply (IH _ _ _ _ Hrun)].
  inv_bind Hrun.
  destruct (Qlt_bool min_speed_drop _) eqn:Hdrop; [|now apply (IH _ _ _ _ Hrun)].
  inv_bind Hrun.
  destruct (Qlt_bool min_corner_distance _); [|now apply (IH _ _ _ _ Hrun)].
  inv_bind Hrun.
  destruct x1 as [c' a e|]; [|now apply (IH _ _ _ _ Hrun)].
  inv_bind Hrun.
  destruct (IH _ _ _ _ Hrun k c Hin) as [Hold|Hnew]; [|now right].
  apply in_app_or in Hold as [Hold|[Heq|[]]]; [now left|].
  injection Heq as <- <-. right.
  pose proof Hx1 as Hnum.
  apply candidate_inv in Hnum as (j & delta & _ & _ & _ & Hc).
  apply corner_data_inv in Hc as (Hc & _).
  unfold detected_at. rewrite Hc.
  split; [exact Hi|]. split; [exists x; split; [exact Hx|exact Hdrop]|].
  exists a, e. exact Hx1.
Qed.

(** The brake point of a detection, with its scan index named. *)
Lemma detected_brake_point (t : telemetry) (log : list (nat * corner))
    (i : nat) (c : corner) :
  get_corner_detections t = Ok log ->
  In (i, c) log ->
  exists j,
    brake_point_idx (values (Brake t)) i = Ok j /\
    (first_brake_match (values (Brake t)) i j \/
     (j = i /\ no_brake_match (values (Brake t)) i)) /\
    getitem (values (Distance t)) j = Ok (bp_distance (brakePoint c)) /\
    getitem (values (Speed t)) j = Ok (bp_speed (brakePoint c)) /\
    getitem (values (Brake t)) j = Ok (bp_brakeForce (brakePoint c)).
Proof.
  unfold get_corner_detections. intros Hrun Hin.
  destruct (corner_detections_inv _ _ _ _ _ _ _ _ Hrun _ _ Hin)
    as [[] | (_ & _ & a & e & Hcand)].
  apply candidate_inv in Hcand as (j & delta & Hj & _ & _ & Hc).
  apply corner_data_inv in Hc as (_ & Hd & Hs & Hb & _).
  exists j. split; [exact Hj|]. split; [now apply brake_point_idx_inv|].
  split; [exact Hd|]. split; [exact Hs|exact Hb].
Qed.

(** The sample lap: the speed drop over the preceding 10 samples is 40 at
    scan index 40 and 55 at scan index 45, so the first corner is detected
    at 45, with sample 33 as its brake point; the second is detected at
    142. *)
Example sample_lap_detections :
  get_corner_detections sample_lap
    = Ok [(45%nat, sample_corner_1); (142%nat, sample_corner_2)] /\
  get_corner_analysis sample_lap = Ok [sample_corner_1; sample_corner_2] /\
  mean (slice lap_speed 30 40) - nth 40 lap_speed 0 == 40 /\
  mean (slice lap_speed 35 45) - nth 45 lap_speed 0 == 55 /\
  brake_point_idx lap_brake 45 = Ok 33%nat.
Proof.
  split; [vm_compute; reflexivity|].
  split; [vm_compute; reflexivity|].
  split; [vm_compute; reflexivity|].
  split; vm_compute; reflexivity.
Qed.

(** C4 as stated fails.  On the sample lap the speed drop first exceeds 40
    at scan index 45, where the first corner is detected; the brake is
    applied at samples 33 to 55, so the last braking sample of the
    look-back [[10, 45)] is 44, at distance 440, while the reported brake
    point is sample 33, at distance 330. *)
Lemma brake_point_is_not_last_match :
  ~ (forall (t : telemetry) (log : list (nat * corner)) (i : nat) (c : corner),
       get_corner_detections t = Ok log ->
       In (i, c) log ->
       exists j,
         (last_brake_match (values (Brake t)) i j \/
          (j = i /\ no_brake_match (values (Brake t)) i)) /\
         getitem (values (Distance t)) j = Ok (bp_distance (brakePoint c)) /\
         getitem (values (Speed t)) j = Ok (bp_speed (brakePoint c)) /\
         getitem (values (Brake t)) j = Ok (bp_brakeForce (brakePoint c))).
Proof.
  intro H.
  assert (Hbraking : braking_at lap_brake 44).
  { exists 100. split; [reflexivity|lra]. }
  destruct (H sample_lap [(45%nat, sample_corner_1); (142%nat, sample_corner_2)]
              45%nat sample_corner_1)
    as (j & Hj & Hdist & _).
  - vm_compute. reflexivity.
  - left. reflexivity.
  - change (values (Brake sample_lap)) with lap_brake in Hj.
    change (values (Distance sample_lap)) with lap_distance in Hdist.
    assert (Hj44 : j = 44%nat).
    { destruct Hj as [(Hin & _ & Hlast) | (_ & Hnone)].
      - unfold in_lookback in Hin.
        destruct (Nat.lt_ge_cases j 44) as [Hlt|Hge]; [|lia].
        exfalso. apply (Hlast 44%nat); [unfold in_lookback; lia | exact Hlt |].
        exact Hbraking.
      - exfalso. apply (Hnone 44%nat); [unfold in_lookback; lia|].
        exact Hbraking. }
    subst j. vm_compute in Hdist. discriminate.
Qed.

(** ** The brake-zone scan *)

Lemma length_slice {A : Type} (xs : list A) (s e : nat) :
  (e <= length xs)%nat -> length (slice xs s e) = (e - s)%nat.
Proof.
  intro H. unfold slice. rewrite length_firstn, length_skipn. lia.
Qed.

Lemma over10_iff (brake : list Q) (i : nat) (b : Q) :
  getitem brake i = Ok b -> (over10 brake i <-> 10 < b).
Proof.
  intro H. apply getitem_Ok in H. unfold over10. split.
  - intros (b' & Hb' & Hlt). assert (b' = b) by congruence. now subst.
  - intro Hlt. now exists b.
Qed.

(** A maximal run ending at [e] starts where the scan opened its zone. *)
Lemma maximal_run_start (brake : list Q) (s zs e : nat) :
  maximal_run brake s e ->
  (zs < e)%nat ->
  (forall k, (zs <= k < e)%nat -> over10 brake k) ->
  (zs = 0%nat \/ ~ over10 brake (zs - 1)) ->
  s = zs.
Proof.
  intros (Hse & Hall & Hleft & _) Hzs Hzall Hzleft.
  destruct (Nat.lt_trichotomy s zs) as [Hlt | [Heq | Hgt]]; [|exact Heq|].
  - exfalso. destruct Hzleft as [->|Hn]; [lia|]. apply Hn, Hall. lia.
  - exfalso. destruct Hleft as [->|Hn]; [lia|]. apply Hn, Hzall. lia.
Qed.

Section BrakeZones.

Variables brake speed distance : list Q.
Hypothesis Hlen : length distance = length brake.

Lemma zone_record_ok (s e : nat) :
  (s < e <= length brake)%nat ->
  exists z, zone_record brake speed distance s e = Ok z /\
            duration z = QofN (e - s) / 100.
Proof.
  intro Hse. unfold zone_record.
  run_getitem distance s. run_getitem distance (e - 1)%nat.
  eexists. split; [reflexivity|]. cbn [duration].
  rewrite length_slice by lia. reflexivity.
Qed.

Lemma brake_loop_spec (n : nat) :
  forall (i : nat) (inz : bool) (zs : nat)
         (zones : list brake_zone) (spans : list (nat * nat)),
    (i + n = length brake)%nat ->
    brake_inv brake speed distance i inz zs zones spans ->
    exists inz' zs' zones' spans',
      brake_loop brake speed distance n i inz zs zones = Ok zones' /\
      brake_inv brake speed distance (length brake) inz' zs' zones' spans'.
Proof.
  induction n as [|n IH]; intros i inz zs zones spans Hi Hinv;
    cbn [brake_loop].
  - replace (length brake) with i by lia. now exists inz, zs, zones, spans.
  - run_getitem brake i.
    pose proof (@over10_iff brake i v Hv) as Hover.
    destruct Hinv as [Hz Hr Ho Hb Hc Hs].
    unfold Qlt_bool.
    destruct (Qle_bool v 10) eqn:Hle; destruct inz; cbn [negb andb].
    + (* the zone [zs, i) closes *)
      apply Qle_bool_iff in Hle.
      assert (Hnot : ~ over10 brake i) by (rewrite Hover; lra).
      destruct Hs as (Hzs & Hall & Hleft).
      assert (Hrun : maximal_run brake zs i).
      { split; [lia|]. split; [exact Hall|]. split; assumption. }
      rewrite length_slice by lia.
      destruct (5 <? i - zs)%nat eqn:Hlong.
      * apply Nat.ltb_lt in Hlong.
        destruct (@zone_record_ok zs i) as (z & Hzr & _); [lia|].
        rewrite Hzr; cbn [bind].
        apply (IH (S i) false zs (zones ++ [z]) (spans ++ [(zs, i)])); [lia|].
        split.
        -- apply Forall2_app; [exact Hz|]. constructor; [exact Hzr|constructor].
        -- apply Forall_app. split; [exact Hr|].
           constructor; [split; [exact Hrun|exact Hlong]|constructor].
        -- apply StronglySorted_snoc; [exact Ho|].
           eapply Forall_impl; [|exact Hb]. unfold before. cbn. intros; lia.
        -- apply Forall_app. split.
           ++ eapply Forall_impl; [|exact Hb]. cbn. intros; lia.
           ++ constructor; [cbn; lia|constructor].
        -- intros s e Hm Hl He. apply in_or_app.
           destruct (Nat.eq_dec e i) as [->|Hne].
           ++ right. left. f_equal. symmetry.
              now apply (@maximal_run_start brake s zs i Hm).
           ++ left. apply Hc; [assumption..|lia].
        -- right. now rewrite Nat.sub_1_r.
      * apply Nat.ltb_ge in Hlong.
        apply (IH (S i) false zs zones spans); [lia|].
        split; try assumption.
        -- eapply Forall_impl; [|exact Hb]. cbn. intros; lia.
        -- intros s e Hm Hl He.
           destruct (Nat.eq_dec e i) as [->|Hne]; [|apply Hc; [assumption..|lia]].
           exfalso. assert (s = zs) by now apply (@maximal_run_start brake s zs i Hm).
           subst. lia.
        -- right. now rewrite Nat.sub_1_r.
    + (* outside a zone, and staying outside *)
      apply Qle_bool_iff in Hle.
      assert (Hnot : ~ over10 brake i) by (rewrite Hover; lra).
      apply (IH (S i) false zs zones spans); [lia|].
      split; try assumption.
      * eapply Forall_impl; [|exact Hb]. cbn. intros; lia.
      * intros s e Hm Hl He.
        destruct (Nat.eq_dec e i) as [->|Hne]; [|apply Hc; [assumption..|lia]].
        exfalso. destruct Hm as (Hse & Hall & _).
        destruct Hs as [->|Hn]; [lia|]. apply Hn, Hall. lia.
      * right. now rewrite Nat.sub_1_r.
    + (* inside a zone, and staying inside *)
      apply Qle_bool_false in Hle.
      assert (Hyes : over10 brake i) by (rewrite Hover; lra).
      destruct Hs as (Hzs & Hall & Hleft).
      apply (IH (S i) true zs zones spans); [lia|].
      split; try assumption.
      * intros s e Hm Hl He.
        destruct (Nat.eq_dec e i) as [->|Hne]; [|apply Hc; [assumption..|lia]].
        exfalso. now destruct Hm as (_ & _ & _ & Hend).
      * split; [lia|]. split; [|exact Hleft].
        intros k Hk. destruct (Nat.eq_dec k i) as [->|]; [exact Hyes|].
        apply Hall. lia.
    + (* a zone opens at [i] *)
      apply Qle_bool_false in Hle.
      assert (Hyes : over10 brake i) by (rewrite Hover; lra).
      apply (IH (S i) true i zones spans); [lia|].
      split; try assumption.
      * intros s e Hm Hl He.
        destruct (Nat.eq_dec e i) as [->|Hne]; [|apply Hc; [assumption..|lia]].
        exfalso. now destruct Hm as (_ & _ & _ & Hend).
      * split; [lia|]. split.
        -- intros k Hk. now replace k with i by lia.
        -- destruct Hs as [->|Hn]; [now left|now right].
Qed.

Lemma brake_zone_scan_spec :
  exists zones spans,
    brake_zone_scan brake speed distance = Ok zones /\
    Forall2 (zone_of brake speed distance) zones spans /\
    Forall (long_run brake) spans /\
    StronglySorted before spans /\
    (forall s e, maximal_run brake s e -> (5 < e - s)%nat ->
                 (e < length brake)%nat -> In (s, e) spans).
Proof.
  unfold brake_zone_scan.
  destruct (@brake_loop_spec (length brake) 0 false 0 [] [])
    as (inz & zs & zones & spans & Hrun & [Hz Hr Ho Hb Hc Hs]).
  - reflexivity.
  - split; [constructor | constructor | constructor | constructor
           | intros; lia | now left].
  - exists zones, spans. auto.
Qed.

End BrakeZones.

Lemma Forall2_firstn {A B : Type} (R : A -> B -> Prop) (n : nat)
    (xs : list A) (ys : list B) :
  Forall2 R xs ys -> Forall2 R (firstn n xs) (firstn n ys).
Proof.
  intro H. revert n. induction H; intros [|n]; cbn; constructor; auto.
Qed.

Lemma Forall_firstn {A : Type} (P : A -> Prop) (n : nat) (xs : list A) :
  Forall P xs -> Forall P (firstn n xs).
Proof.
  intro H. revert n. induction H; intros [|n]; cbn; constructor; auto.
Qed.

Lemma QofN_lt (a b : nat) : (a < b)%nat -> QofN a < QofN b.
Proof.
  intro H. unfold QofN. rewrite <- Zlt_Qlt. lia.
Qed.

Lemma zone_of_duration (brake speed distance : list Q)
    (z : brake_zone) (se : nat * nat) :
  zone_of brake speed distance z se -> long_run brake se ->
  5 / 100 < duration z.
Proof.
  unfold zone_of, long_run, zone_record. intros Hz (Hrun & Hlong).
  do 2 inv_bind Hz. injection Hz as <-. cbn [duration].
  destruct Hrun as (Hse & _). rewrite length_slice by lia.
  apply QofN_lt in Hlong. change (QofN 5) with 5 in Hlong.
  unfold Qdiv. apply Qmult_lt_r; [reflexivity|exact Hlong].
Qed.

(** C5 (amended). With a distance column as long as the brake column, the
    brake analysis returns; the zones it detects are maximal runs of
    samples above 10 of more than 5 samples each, in scan order, and
    include every such run that is followed by a sample; the report is the
    first 10 of them, so it has at most 10 zones, each longer than 5
    samples. *)
Theorem brake_zones_are_long_runs
    (speed distance brake : list Q) (throttle : option (list Q)) :
  length distance = length brake ->
  exists (r : brake_analysis) (spans : list (nat * nat)),
    get_brake_analysis {| Speed := Some speed; Distance := Some distance;
                          Brake := Some brake; Throttle := throttle |} = Ok r /\
    Forall (long_run brake) spans /\
    StronglySorted before spans /\
    (forall s e, maximal_run brake s e -> (5 < e - s)%nat ->
                 (e < length brake)%nat -> In (s, e) spans) /\
    Forall2 (zone_of brake speed distance) (brakeZones r) (firstn 10 spans) /\
    (length (brakeZones r) <= 10)%nat /\
    Forall (fun z => 5 / 100 < duration z) (brakeZones r).
Proof.
  intro Hlen.
  destruct (@brake_zone_scan_spec brake speed distance Hlen)
    as (zones & spans & Hscan & Hz & Hr & Ho & Hc).
  unfold get_brake_analysis. cbn [values Speed Distance Brake Throttle].
  rewrite Hscan. cbn [bind].
  eexists. exists spans. split; [reflexivity|]. cbn [brakeZones].
  assert (Hz10 : Forall2 (zone_of brake speed distance)
                   (firstn 10 zones) (firstn 10 spans))
    by now apply Forall2_firstn.
  repeat (split; [assumption|]).
  split; [apply firstn_le_length|].
  assert (Hr10 : Forall (long_run brake) (firstn 10 spans))
    by now apply Forall_firstn.
  clear - Hz10 Hr10. induction Hz10 as [|z se zs ses Hzse _ IH]; constructor.
  - inversion Hr10; subst. eapply zone_of_duration; eassumption.
  - apply IH. now inversion Hr10.
Qed.

Lemma brake_zones_are_long_runs_witness :
  exists (r : brake_analysis) (spans : list (nat * nat)),
    get_brake_analysis sample_lap = Ok r /\
    Forall (long_run lap_brake) spans /\
    StronglySorted before spans /\
    (forall s e, maximal_run lap_brake s e -> (5 < e - s)%nat ->
                 (e < length lap_brake)%nat -> In (s, e) spans) /\
    Forall2 (zone_of lap_brake lap_speed lap_distance)
            (brakeZones r) (firstn 10 spans) /\
    (length (brakeZones r) <= 10)%nat /\
    Forall (fun z => 5 / 100 < duration z) (brakeZones r).
Proof.
  apply (@brake_zones_are_long_runs lap_speed lap_distance lap_brake
           (Some lap_throttle)).
  reflexivity.
Defined.

Example sample_lap_brake_zones :
  exists r z1 z2, get_brake_analysis sample_lap = Ok r /\
    brakeZones r = [z1; z2] /\
    startDistance z1 = 330 /\ endDistance z1 = 550 /\ duration z1 == 23 / 100.
Proof.
  do 3 eexists. split; [vm_compute; reflexivity|].
  split; [reflexivity|]. repeat split.
Qed.

(** C5 as stated fails: samples 1 to 5 of [short_zone_brake] are a maximal
    run above 10 of exactly 5 samples, and no zone is reported. *)
Lemma run_of_five_samples_not_reported :
  maximal_run short_zone_brake 1 6 /\ (5 <= 6 - 1)%nat /\
  exists r, get_brake_analysis short_zone_lap = Ok r /\ brakeZones r = [].
Proof.
  split; [|split; [lia|]].
  - split; [cbn; lia|]. split; [|split].
    + intros k Hk.
      assert (Hcases : (k = 1 \/ k = 2 \/ k = 3 \/ k = 4 \/ k = 5)%nat) by lia.
      exists 20. split; [|lra].
      destruct Hcases as [H | [H | [H | [H | H]]]]; subst k; reflexivity.
    + right. intros (b & Hb & Hlt). cbn in Hb. injection Hb as <-. lra.
    + intros (b & Hb & Hlt). cbn in Hb. injection Hb as <-. lra.
  - eexists. split; [vm_compute; reflexivity|reflexivity].
Qed.

(** ** Scenarios on concrete laps *)

(** C3 (amended). On the constant lap of the scenario (speed 200 over 100
    samples, brake and throttle 0, any distance column) the analysers
    report no corner, no brake zone, speed variance 0 and aerodynamic
    efficiency 0: no sample is above the 75th percentile, so the high-speed
    average is 0. *)
Theorem constant_speed_lap (distance : option (list Q)) :
  get_corner_analysis (constant_lap distance) = Ok [] /\
  (exists b, get_brake_analysis (constant_lap distance) = Ok b /\
             brakeZones b = []) /\
  (exists d, get_downforce_analysis (constant_lap distance) = Ok d /\
             speedVariance d == 0 /\
             highSpeedAvg d == 0 /\
             aerodynamicEfficiency d == 0).
Proof.
  split; [vm_compute; reflexivity|]. split.
  - eexists. split; [vm_compute; reflexivity|reflexivity].
  - eexists. split; [vm_compute; reflexivity|].
    repeat split; vm_compute; reflexivity.
Qed.

(** C3 as stated fails: the aerodynamic efficiency of the constant lap is
    not 200. *)
Lemma constant_speed_efficiency_is_not_200 :
  exists d, get_downforce_analysis (constant_lap None) = Ok d /\
            ~ aerodynamicEfficiency d == 200.
Proof.
  eexists. split; [vm_compute; reflexivity|].
  vm_compute. discriminate.
Qed.

(** C1 (the code differs). With a column absent and the others present the
    detectors raise: the corner detector subscripts the empty distance,
    brake or throttle list at a candidate, the brake analysis subscripts the
    empty distance list at a zone and compares the empty brake list with 0,
    the throttle analysis subscripts the empty distance list at an
    application point. *)
Theorem absent_column_raises :
  get_corner_analysis (without_Distance sample_lap) = Raise IndexError /\
  get_corner_analysis (without_Brake sample_lap) = Raise IndexError /\
  get_corner_analysis (without_Throttle sample_lap) = Raise IndexError /\
  get_brake_analysis (without_Distance sample_lap) = Raise IndexError /\
  get_brake_analysis (without_Brake sample_lap) = Raise TypeError /\
  get_throttle_trace (without_Distance sample_lap) = Raise IndexError.
Proof.
  repeat split; vm_compute; reflexivity.
Qed.

(** C2 (the code differs). On seven samples from 50 to 350 the downforce
    index is -5: it has no lower clamp. *)
Theorem downforce_index_negative :
  exists d, get_downforce_analysis spread_lap = Ok d /\
            downforceIndex d == - (5) /\ downforceIndex d < 0.
Proof.
  eexists. split; [vm_compute; reflexivity|].
  split; vm_compute; reflexivity.
Qed.

(** C6 (the code differs). The throttle of [late_throttle] crosses 50
    upward at its last sample, index 2, and no application point is
    reported: the scan stops one sample before the end. *)
Theorem last_sample_crossing_not_reported :
  crossing late_throttle 2 /\
  exists r, get_throttle_trace late_throttle_lap = Ok r /\
            throttleApplicationPoints r = [].
Proof.
  split.
  - split; [lia|]. exists 0, 100. repeat split; try reflexivity; lra.
  - eexists. split; [vm_compute; reflexivity|reflexivity].
Qed.

(** ** Stints *)

Lemma flush_acc (ts : list tire_stint) (cur : option string) (sl : list stint_lap) :
  flush ts cur sl = ts ++ flush [] cur sl.
Proof.
  destruct sl; cbn; [now rewrite app_nil_r|reflexivity].
Qed.

Lemma stint_loop_acc (rest : list lap) :
  forall ts cur sl,
    stint_loop rest ts cur sl = ts ++ stint_loop rest [] cur sl.
Proof.
  induction rest as [|l rest IH]; intros ts cur sl; cbn [stint_loop].
  - apply flush_acc.
  - destruct (Compound l) as [c|]; [|apply IH].
    destruct (LapTime l) as [t|]; [|apply IH].
    destruct (negb (same_compound (upper c) cur)); [|apply IH].
    rewrite IH, (IH (flush [] cur sl)), flush_acc. now rewrite app_assoc.
Qed.

Lemma same_compound_true (c : string) (cur : option string) :
  same_compound c cur = true -> cur = Some c.
Proof.
  destruct cur as [c'|]; cbn; [|discriminate].
  intro H. apply String.eqb_eq in H. now subst.
Qed.

Lemma same_compound_false (c : string) (cur : option string) :
  same_compound c cur = false -> cur <> Some c.
Proof.
  destruct cur as [c'|]; cbn; [|discriminate].
  intros H Heq. injection Heq as ->. now rewrite String.eqb_refl in H.
Qed.

Lemma make_stint_report_ok (cur : option string) (sl : list stint_lap) :
  sl <> [] -> stint_report_ok (make_stint cur sl).
Proof.
  intro Hne. unfold stint_report_ok, make_stint. cbn [laps avgLapTime degradation].
  split; [exact Hne|]. split; [reflexivity|].
  unfold calculate_degradation. split.
  - intro Hlt. apply Nat.ltb_lt in Hlt. now rewrite Hlt.
  - intros first mid last Hge ->.
    destruct (Nat.ltb_spec (length (first :: mid ++ [last])) 3); [lia|].
    rewrite length_map. cbn [map hd]. rewrite map_app. cbn [map].
    change (time first :: map time mid ++ [time last])
      with ((time first :: map time mid) ++ [time last]).
    now rewrite last_last.
Qed.

(** The state of the stint loop: the stints it will have returned, given
    the open stint [(cur, sl)] and the laps still to read. *)
Lemma stint_loop_spec (rest : list lap) :
  forall (cur : option string) (sl : list stint_lap),
    (sl = [] -> cur = None) ->
    let stints := stint_loop rest [] cur sl in
    flat_map stint_entries stints
      = map (fun e => (cur, e)) sl ++ retained_entries rest /\
    Forall stint_report_ok stints /\
    adjacent_differ stints /\
    (forall s, hd_error stints = Some s ->
               match sl with
               | [] => compound s <> None
               | _ => compound s = cur
               end).
Proof.
  induction rest as [|l rest IH]; intros cur sl Hstate; cbn zeta.
  - cbn [stint_loop retained_entries flat_map]. rewrite app_nil_r.
    destruct sl as [|e sl]; cbn [flush app].
    + repeat split; try constructor. intros s; discriminate.
    + repeat split.
      * cbn [flat_map]. now rewrite app_nil_r.
      * constructor; [|constructor]. now apply make_stint_report_ok.
      * intros s Hs. now injection Hs as <-.
  - cbn [stint_loop retained_entries flat_map].
    fold (retained_entries rest).
    destruct (Compound l) as [c|]; [|now apply IH].
    destruct (LapTime l) as [t|]; [|now apply IH].
    set (e := {| lapNumber := LapNumber l; time := t |}).
    destruct (same_compound (upper c) cur) eqn:Hsame; cbn [negb].
    + (* the lap extends the open stint *)
      apply same_compound_true in Hsame.
      destruct (IH cur (sl ++ [e])) as (Hflat & Hok & Hadj & Hhd).
      { intro H. now destruct sl. }
      split; [|split; [exact Hok|split; [exact Hadj|]]].
      * rewrite Hflat, map_app, <- app_assoc. cbn. now rewrite Hsame.
      * intros s Hs. specialize (Hhd s Hs).
        destruct sl as [|e0 sl]; [|exact Hhd].
        specialize (Hstate eq_refl). congruence.
    + (* the lap opens a new stint *)
      apply same_compound_false in Hsame.
      rewrite stint_loop_acc.
      destruct (IH (Some (upper c)) [e]) as (Hflat & Hok & Hadj & Hhd);
        [discriminate|].
      destruct (stint_loop rest [] (Some (upper c)) [e]) as [|s' stints'] eqn:Hrest;
        [discriminate|].
      specialize (Hhd s' eq_refl). cbn in Hhd.
      destruct sl as [|e0 sl]; cbn [flush app].
      * split; [exact Hflat|]. split; [exact Hok|]. split; [exact Hadj|].
        intros s Hs. injection Hs as <-. congruence.
      * split; [|split; [|split]].
        -- change (flat_map stint_entries (make_stint cur (e0 :: sl) :: s' :: stints'))
             with (stint_entries (make_stint cur (e0 :: sl))
                   ++ flat_map stint_entries (s' :: stints')).
           now rewrite Hflat.
        -- constructor; [|exact Hok]. now apply make_stint_report_ok.
        -- split; [|exact Hadj]. cbn. congruence.
        -- intros s Hs. now injection Hs as <-.
Qed.

(** C8. The stints of a driver concatenate to the driver's retained laps,
    each lap in a stint of its own compound; no stint is empty and
    neighbouring stints differ in compound, so the stints are the maximal
    runs; a stint of fewer than 3 laps has degradation 0, a longer one
    (last time - first time) / lap count.  Five SOFT laps then five MEDIUM
    laps give two stints of five laps with degradations (a5 - a1) / 5 and
    (b5 - b1) / 5. *)
Theorem stints_are_compound_runs :
  (forall (session_laps : list lap) (d : string),
     let stints := get_tire_degradation session_laps d in
     flat_map stint_entries stints = retained_entries (laps_of session_laps d) /\
     adjacent_differ stints /\
     Forall stint_report_ok stints) /\
  (forall (d : string) (a1 a2 a3 a4 a5 b1 b2 b3 b4 b5 : Q),
     let stints :=
       get_tire_degradation (scenario_laps d a1 a2 a3 a4 a5 b1 b2 b3 b4 b5) d in
     map compound stints = [Some "SOFT"%string; Some "MEDIUM"%string] /\
     map laps stints =
       [ [entry 1 a1; entry 2 a2; entry 3 a3; entry 4 a4; entry 5 a5];
         [entry 6 b1; entry 7 b2; entry 8 b3; entry 9 b4; entry 10 b5] ] /\
     map degradation stints = [(a5 - a1) / 5; (b5 - b1) / 5]).
Proof.
  split.
  - intros session_laps d. cbn zeta. unfold get_tire_degradation.
    destruct (@stint_loop_spec (laps_of session_laps d) None [])
      as (Hflat & Hok & Hadj & _); [reflexivity|].
    repeat split; assumption.
  - intros d a1 a2 a3 a4 a5 b1 b2 b3 b4 b5. cbn zeta.
    unfold get_tire_degradation, scenario_laps, laps_of.
    cbn [filter scenario_lap Driver]. rewrite !String.eqb_refl.
    repeat split.
Qed.

Lemma stints_are_compound_runs_witness :
  let stints := get_tire_degradation (scenario_laps "VER"%string 90 91 92 93 94 89 90 91 92 93) "VER"%string in
  (flat_map stint_entries stints
     = retained_entries (laps_of (scenario_laps "VER"%string 90 91 92 93 94 89 90 91 92 93) "VER"%string) /\
   adjacent_differ stints /\
   Forall stint_report_ok stints) /\
  map degradation stints = [(94 - 90) / 5; (93 - 89) / 5].
Proof.
  split.
  - exact (proj1 stints_are_compound_runs
             (scenario_laps "VER"%string 90 91 92 93 94 89 90 91 92 93) "VER"%string).
  - exact (proj2 (proj2 (proj2 stints_are_compound_runs
             "VER"%string 90 91 92 93 94 89 90 91 92 93))).
Defined.

(** ** Race pace *)

Lemma pace_loop_acc (session_laps : list lap) (drivers : list string) :
  forall acc,
    pace_loop session_laps drivers acc
    = acc ++ pace_loop session_laps drivers [].
Proof.
  induction drivers as [|d rest IH]; intro acc; cbn [pace_loop].
  - now rewrite app_nil_r.
  - destruct (0 <? length (dropna_LapTime (laps_of session_laps d)))%nat.
    + rewrite IH, (IH ([] ++ _)). cbn [app]. now rewrite <- app_assoc.
    + apply IH.
Qed.

Lemma has_valid_lap_iff (session_laps : list lap) (d : string) :
  (0 <? length (dropna_LapTime (laps_of session_laps d)))%nat
  = has_valid_lap session_laps d.
Proof.
  unfold dropna_LapTime, laps_of, has_valid_lap.
  induction session_laps as [|l rest IH]; [reflexivity|].
  cbn [filter existsb].
  destruct (String.eqb (Driver l) d); cbn [andb filter orb]; [|exact IH].
  destruct (is_some (LapTime l)); cbn [orb]; [reflexivity|exact IH].
Qed.

(** C10. The pace comparison has one entry for each requested driver who
    has a lap with a lap time, in the order of the request; a driver
    without such a lap has no entry; each entry counts the driver's timed
    laps. *)
Theorem race_pace_omits_drivers_without_laps
    (session_laps : list lap) (drivers : list string) :
  map driver (get_race_pace session_laps drivers)
    = filter (has_valid_lap session_laps) drivers /\
  Forall (fun p =>
            totalLaps p = length (dropna_LapTime (laps_of session_laps (driver p))) /\
            (0 < totalLaps p)%nat)
         (get_race_pace session_laps drivers).
Proof.
  unfold get_race_pace.
  induction drivers as [|d rest IH]; cbn [pace_loop filter]; [now split|].
  rewrite <- has_valid_lap_iff.
  destruct (0 <? length (dropna_LapTime (laps_of session_laps d)))%nat eqn:Hvalid;
    [|exact IH].
  rewrite pace_loop_acc. cbn [app map]. destruct IH as [IHd IHf].
  split; [now rewrite IHd|].
  constructor; [|exact IHf]. cbn [totalLaps driver].
  apply Nat.ltb_lt in Hvalid. now split.
Qed.

Example race_pace_sample :
  map driver (get_race_pace pace_session ["HAM"; "LEC"; "VER"%string]%string)
  = ["LEC"; "VER"%string]%string.
Proof. reflexivity. Qed.

(** ** Least squares *)

Lemma QofN_S (n : nat) : QofN (S n) == QofN n + 1.
Proof.
  unfold QofN. rewrite Nat2Z.inj_succ, <- Z.add_1_r, inject_Z_plus. reflexivity.
Qed.

Lemma QofN_pos (n : nat) : (0 < n)%nat -> 0 < QofN n.
Proof.
  intro H. apply (QofN_lt H).
Qed.

Lemma Qsquare_nonneg (x : Q) : 0 <= x * x.
Proof. nra. Qed.

(** A quadratic form with positive leading coefficient and non-negative
    determinant is non-negative. *)
Lemma quadratic_form_nonneg (n sxx sx da db : Q) :
  0 < n -> 0 <= n * sxx - sx * sx ->
  0 <= da * da * sxx + 2 * da * db * sx + n * db * db.
Proof.
  intros Hn HD.
  apply (Qmult_le_l _ _ n Hn).
  assert (Hsum : n * (da * da * sxx + 2 * da * db * sx + n * db * db)
                 == (n * db + sx * da) * (n * db + sx * da)
                    + (n * sxx - sx * sx) * (da * da)) by ring.
  rewrite Hsum.
  pose proof (Qsquare_nonneg (n * db + sx * da)) as H1.
  pose proof (Qmult_le_0_compat _ _ HD (Qsquare_nonneg da)) as H2.
  lra.
Qed.

Section LeastSquares.

Lemma sse_shift (xs : list Q) :
forall (ys : list Q) (a b a' b' : Q),
  length xs = length ys ->
  sse xs ys a' b' ==
    sse xs ys a b
    + (a' - a) * (a' - a) * sq xs
    + 2 * (a' - a) * (b' - b) * sumQ xs
    + QofN (length xs) * (b' - b) * (b' - b)
    - 2 * (a' - a) * (dot xs ys - a * sq xs - b * sumQ xs)
    - 2 * (b' - b) * (sumQ ys - a * sumQ xs - QofN (length xs) * b).
Proof.
unfold sq, dot.
induction xs as [|x xs IH]; intros [|y ys] a b a' b' Hlen;
  try discriminate.
- cbn [sse sumQ fold_right map mul_arrays length].
  change (QofN 0) with 0. ring.
- injection Hlen as Hlen.
  cbn [sse sumQ fold_right map mul_arrays length].
  fold (sumQ xs) (sumQ ys) (sumQ (map (fun x => x * x) xs))
       (sumQ (mul_arrays xs ys)).
  rewrite (IH ys a b a' b' Hlen), QofN_S. ring.
Qed.

Lemma sq_shift (k c : Q) (xs : list Q) :
sq (map (fun x => k * x - c) xs) ==
  k * k * sq xs - 2 * k * c * sumQ xs + QofN (length xs) * c * c.
Proof.
unfold sq. induction xs as [|x xs IH].
- cbn [map sumQ fold_right length]. change (QofN 0) with 0. ring.
- cbn [map sumQ fold_right length].
  fold (sumQ xs) (sumQ (map (fun x => x * x) xs))
       (sumQ (map (fun x => x * x) (map (fun x => k * x - c) xs))).
  rewrite IH, QofN_S. ring.
Qed.

Lemma dot_shift (k c : Q) (xs : list Q) :
forall ys, length xs = length ys ->
  dot (map (fun x => k * x - c) xs) ys == k * dot xs ys - c * sumQ ys.
Proof.
unfold dot. induction xs as [|x xs IH]; intros [|y ys] Hlen;
  try discriminate.
- cbn [map mul_arrays sumQ fold_right]. ring.
- injection Hlen as Hlen.
  cbn [map mul_arrays sumQ fold_right].
  fold (sumQ ys) (sumQ (mul_arrays xs ys))
       (sumQ (mul_arrays (map (fun x => k * x - c) xs) ys)).
  rewrite (IH ys Hlen). ring.
Qed.

Lemma sq_nonneg (vs : list Q) : 0 <= sq vs.
Proof.
unfold sq. induction vs as [|v vs IH]; cbn [map sumQ fold_right]; [lra|].
fold (sumQ (map (fun x => x * x) vs)). nra.
Qed.

Lemma sq_zero_dot (vs : list Q) :
forall ys, sq vs == 0 -> dot vs ys == 0.
Proof.
induction vs as [|v vs IH]; intros [|y ys] Hz; try reflexivity.
pose proof (sq_nonneg vs) as Hnn.
unfold sq, dot in *.
cbn [map sumQ fold_right mul_arrays] in *.
fold (sumQ (map (fun x => x * x) vs)) in *.
fold (sumQ (mul_arrays vs ys)).
assert (Hv : v * v == 0) by nra.
assert (Hrest : sumQ (map (fun x => x * x) vs) == 0) by nra.
rewrite (IH ys Hrest).
apply Qmult_integral in Hv. assert (v == 0) as -> by tauto. ring.
Qed.

Variables xs ys : list Q.
Hypothesis Hlen : length xs = length ys.
Hypothesis Hne : (0 < length xs)%nat.

(** Cauchy-Schwarz for the vector of ones. *)
Lemma normal_determinant :
0 <= normal_det xs /\ (normal_det xs == 0 -> normal_num xs ys == 0).
Proof.
pose proof (QofN_pos Hne) as Hn.
set (n := QofN (length xs)) in *.
pose proof (sq_shift n (sumQ xs) xs) as Hsq.
pose proof (@dot_shift n (sumQ xs) xs ys Hlen) as Hdot.
pose proof (sq_nonneg (map (fun x => n * x - sumQ xs) xs)) as Hnn.
assert (HnD : sq (map (fun x => n * x - sumQ xs) xs) == n * normal_det xs)
  by (rewrite Hsq; unfold normal_det; fold n; ring).
split.
- rewrite HnD in Hnn. nra.
- intro HD. unfold normal_num. fold n. rewrite <- Hdot.
  apply sq_zero_dot. rewrite HnD, HD. ring.
Qed.

(** The line of [polyfit1] solves the normal equations. *)
Lemma polyfit1_normal :
let (a, b) := polyfit1 xs ys in
dot xs ys - a * sq xs - b * sumQ xs == 0 /\
sumQ ys - a * sumQ xs - QofN (length xs) * b == 0.
Proof.
pose proof (QofN_pos Hne) as Hn.
destruct normal_determinant as [HD Hnum].
unfold polyfit1. fold (sq xs) (dot xs ys).
fold (normal_num xs ys) (normal_det xs).
set (n := QofN (length xs)) in *.
set (a := normal_num xs ys / normal_det xs).
assert (Ha : a * normal_det xs == normal_num xs ys).
{ unfold a. destruct (Qeq_dec (normal_det xs) 0) as [Hz|Hnz].
  - rewrite (Hnum Hz), Hz. ring.
  - field. exact Hnz. }
assert (Hb : n * ((sumQ ys - a * sumQ xs) / n) == sumQ ys - a * sumQ xs)
  by (field; lra).
split; [|rewrite Hb; ring].
apply (Qmult_inj_l _ _ n); [lra|].
transitivity (normal_num xs ys - a * normal_det xs
              - sumQ xs * (sumQ ys - a * sumQ xs)
              + sumQ xs * (n * ((sumQ ys - a * sumQ xs) / n)) - 0 * n).
- unfold normal_num, normal_det. fold n. field. lra.
- rewrite Hb, Ha. ring.
Qed.

(** [polyfit1] minimises the sum of squared residuals. *)
Lemma polyfit1_least_squares :
forall a' b',
  sse xs ys (fst (polyfit1 xs ys)) (snd (polyfit1 xs ys)) <= sse xs ys a' b'.
Proof.
intros a' b'.
pose proof (QofN_pos Hne) as Hn.
destruct normal_determinant as [HD _].
pose proof polyfit1_normal as Hnormal.
destruct (polyfit1 xs ys) as [a b]. cbn [fst snd].
destruct Hnormal as [N1 N2].
rewrite (@sse_shift xs ys a b a' b' Hlen).
rewrite N1, N2.
set (da := a' - a). set (db := b' - b).
pose proof (@quadratic_form_nonneg (QofN (length xs)) (sq xs) (sumQ xs)
              da db Hn HD) as Hform.
lra.
Qed.

End LeastSquares.

(** ** Fuel effect *)

Lemma length_times_of_dropna (ls : list lap) :
  length (times_of (dropna_LapTime ls)) = length (dropna_LapTime ls).
Proof.
  unfold times_of, dropna_LapTime.
  induction ls as [|l ls IH]; [reflexivity|].
  cbn [filter]. destruct (LapTime l) as [t|] eqn:Ht; cbn [is_some]; [|exact IH].
  cbn [flat_map length]. rewrite Ht. cbn [app length]. now rewrite IH.
Qed.

(** C9. With fewer than 5 laps that have a lap time the fuel-effect
    analysis answers [fuelEffect] 0 and fits nothing; with 5 or more it
    answers, as [fuelEffectPerLap], the slope of the line that minimises the
    sum of squared residuals of lap time against lap number, and as
    [totalFuelEffect] that slope times the number of those laps. *)
Theorem fuel_effect_spec (session_laps : list lap) (d : string) :
  let valid_laps := dropna_LapTime (laps_of session_laps d) in
  let lap_numbers := map (fun l => inject_Z (LapNumber l)) valid_laps in
  let lap_times := times_of valid_laps in
  ((length valid_laps < 5)%nat ->
     get_fuel_effect session_laps d = FuelEffect 0) /\
  ((5 <= length valid_laps)%nat ->
     exists slope intercept,
       get_fuel_effect session_laps d
         = FuelTrend slope (slope * QofN (length valid_laps)) /\
       polyfit1 lap_numbers lap_times = (slope, intercept) /\
       forall a b,
         sse lap_numbers lap_times slope intercept
         <= sse lap_numbers lap_times a b).
Proof.
  cbn zeta. unfold get_fuel_effect.
  set (valid_laps := dropna_LapTime (laps_of session_laps d)).
  pose proof (length_times_of_dropna (laps_of session_laps d)) as Htimes.
  fold valid_laps in Htimes.
  split; intro Hcount.
  - apply Nat.ltb_lt in Hcount. now rewrite Hcount.
  - destruct (Nat.ltb_spec (length valid_laps) 5); [lia|].
    rewrite Htimes.
    destruct (Nat.ltb_spec 1 (length valid_laps)); [|lia].
    set (lap_numbers := map (fun l => inject_Z (LapNumber l)) valid_laps).
    exists (fst (polyfit1 lap_numbers (times_of valid_laps))),
           (snd (polyfit1 lap_numbers (times_of valid_laps))).
    split; [reflexivity|]. split; [now destruct (polyfit1 _ _)|].
    apply polyfit1_least_squares.
    + unfold lap_numbers. now rewrite length_map, Htimes.
    + unfold lap_numbers. rewrite length_map. lia.
Qed.

Lemma fuel_effect_spec_witness :
  get_fuel_effect short_session "VER" = FuelEffect 0 /\
  exists slope intercept,
    get_fuel_effect fuel_session "VER"
      = FuelTrend slope
          (slope * QofN (length (dropna_LapTime (laps_of fuel_session "VER")))) /\
    polyfit1 (map (fun l => inject_Z (LapNumber l))
                  (dropna_LapTime (laps_of fuel_session "VER")))
             (times_of (dropna_LapTime (laps_of fuel_session "VER")))
      = (slope, intercept) /\
    forall a b,
      sse (map (fun l => inject_Z (LapNumber l))
               (dropna_LapTime (laps_of fuel_session "VER")))
          (times_of (dropna_LapTime (laps_of fuel_session "VER")))
          slope intercept
      <= sse (map (fun l => inject_Z (LapNumber l))
                  (dropna_LapTime (laps_of fuel_session "VER")))
             (times_of (dropna_LapTime (laps_of fuel_session "VER"))) a b.
Proof.
  split.
  - apply (proj1 (fuel_effect_spec short_session "VER")). vm_compute. lia.
  - apply (proj2 (fuel_effect_spec fuel_session "VER")). vm_compute. lia.
Defined.

Example fuel_session_trend :
  exists slope total,
    get_fuel_effect fuel_session "VER" = FuelTrend slope total /\
    slope == - (1 # 10) /\ total == - (6 # 10).
Proof.
  do 2 eexists. split; [vm_compute; reflexivity|].
  split; vm_compute; reflexivity.
Qed.

(** ** The throttle scan *)

Section ThrottleScan.

Variables throttle distance : list Q.
Hypothesis Hlen : length distance = length throttle.

(** The scan over [[i, i+n)] appends the crossings of that range, in
    order. *)
Lemma throttle_loop_spec (n : nat) :
  forall (i : nat) (points : list throttle_point) (idxs : list nat),
    (1 <= i)%nat -> (i + n <= length throttle)%nat ->
    Forall2 (point_at throttle distance) points idxs ->
    Forall (fun k => k < i)%nat idxs ->
    StronglySorted lt idxs ->
    (forall k, In k idxs -> crossing throttle k) ->
    (forall k, (k < i)%nat -> crossing throttle k -> In k idxs) ->
    exists points' idxs',
      throttle_loop throttle distance n i points = Ok points' /\
      Forall2 (point_at throttle distance) points' idxs' /\
      StronglySorted lt idxs' /\
      (forall k, In k idxs' <-> crossing throttle k /\ (k < i + n)%nat).
Proof.
  induction n as [|n IH]; intros i points idxs Hi Hin Hpts Hlt Hsorted Hsound Hcompl;
    cbn [throttle_loop].
  - exists points, idxs.
    split; [reflexivity|]. split; [exact Hpts|]. split; [exact Hsorted|].
    intro k. split.
    + intro Hk. split; [now apply Hsound|].
      rewrite Forall_forall in Hlt. specialize (Hlt _ Hk). lia.
    + intros [Hk Hki]. apply Hcompl; [lia|exact Hk].
  - run_getitem throttle (i - 1)%nat. run_getitem throttle i.
    assert (Hcross : crossing throttle i <-> v < 50 /\ 50 <= v0).
    { apply getitem_Ok in Hv, Hv0. unfold crossing. split.
      - intros (_ & p & c & Hp & Hc & Hlow & Hhigh).
        assert (p = v) by congruence. assert (c = v0) by congruence.
        subst. now split.
      - intros [Hlow Hhigh]. split; [exact Hi|]. now exists v, v0. }
    assert (Hskip : ~ crossing throttle i ->
              exists points' idxs',
                throttle_loop throttle distance n (S i) points = Ok points' /\
                Forall2 (point_at throttle distance) points' idxs' /\
                StronglySorted lt idxs' /\
                (forall k, In k idxs' <-> crossing throttle k /\ (k < i + S n)%nat)).
    { intro Hno.
      destruct (IH (S i) points idxs) as (points' & idxs' & Hrun & H2 & H3 & H4);
        try assumption; try lia.
      - eapply Forall_impl; [|exact Hlt]. cbn. intros; lia.
      - intros k Hk Hc. destruct (Nat.eq_dec k i) as [->|]; [contradiction|].
        apply Hcompl; [lia|exact Hc].
      - exists points', idxs'.
        split; [exact Hrun|]. split; [exact H2|]. split; [exact H3|].
        intro k. rewrite H4. split; intros [Hc Hk]; (split; [exact Hc|lia]). }
    destruct (Qlt_bool v 50) eqn:Hlow;
      [apply Qlt_bool_iff in Hlow
      | apply Qlt_bool_false in Hlow; apply Hskip; rewrite Hcross; lra].
    destruct (Qle_bool 50 v0) eqn:Hhigh;
      [apply Qle_bool_iff in Hhigh
      | apply Qle_bool_false in Hhigh; apply Hskip; rewrite Hcross; lra].
    run_getitem distance i.
    destruct (IH (S i)
                (points ++ [{| tp_distance := v1; throttleLevel := v0 |}])
                (idxs ++ [i]))
      as (points' & idxs' & Hrun & H2 & H3 & H4); try lia.
    + apply Forall2_app; [exact Hpts|]. constructor; [|constructor].
      split; assumption.
    + apply Forall_app. split.
      * eapply Forall_impl; [|exact Hlt]. cbn. intros; lia.
      * constructor; [lia|constructor].
    + apply StronglySorted_snoc; assumption.
    + intros k Hk. apply in_app_or in Hk as [Hk|[<-|[]]]; [now apply Hsound|].
      apply Hcross. now split.
    + intros k Hk Hc. apply in_or_app.
      destruct (Nat.eq_dec k i) as [->|]; [right; now left|].
      left. apply Hcompl; [lia|exact Hc].
    + exists points', idxs'.
      split; [exact Hrun|]. split; [exact H2|]. split; [exact H3|].
      intro k. rewrite H4. split; intros [Hc Hk]; (split; [exact Hc|lia]).
Qed.

(** The application points of the trace are the first 15 upward crossings
    of 50 at the indices 1 to [len - 2]: the last sample is not examined. *)
Lemma throttle_points_spec (speed brake : option (list Q)) :
  exists (r : throttle_trace) (idxs : list nat),
    get_throttle_trace {| Speed := speed; Distance := Some distance;
                          Brake := brake; Throttle := Some throttle |} = Ok r /\
    StronglySorted lt idxs /\
    (forall k, In k idxs <-> crossing throttle k /\ (k + 1 < length throttle)%nat) /\
    Forall2 (point_at throttle distance)
            (throttleApplicationPoints r) (firstn 15 idxs).
Proof.
  unfold get_throttle_trace. cbn [values Throttle Distance].
  destruct (Nat.le_gt_cases (length throttle) 1) as [Hshort|Hlong].
  - replace (length throttle - 1 - 1)%nat with 0%nat by lia.
    cbn [throttle_loop bind]. eexists. exists []. split; [reflexivity|].
    split; [constructor|]. split; [|constructor].
    intro k. split; [intros []|]. intros [(Hk & _) Hlt]. lia.
  - destruct (@throttle_loop_spec (length throttle - 1 - 1) 1 [] [])
      as (points & idxs & Hrun & H2 & H3 & H4).
    + lia.
    + lia.
    + constructor.
    + constructor.
    + constructor.
    + intros k [].
    + intros k Hk (Hk1 & _). lia.
    + rewrite Hrun. cbn [bind]. eexists. exists idxs.
      split; [reflexivity|]. split; [exact H3|]. split.
      * intro k. rewrite H4. split; intros [Hc Hk]; (split; [exact Hc|lia]).
      * cbn [throttleApplicationPoints]. now apply Forall2_firstn.
Qed.

End ThrottleScan.

(** ** Bounds of the composite scores *)

Lemma pct_bounds (mask : Q -> bool) (xs : list Q) : 0 <= pct mask xs <= 100.
Proof.
  unfold pct. destruct (Nat.ltb_spec 0 (length xs)) as [Hpos|]; [|lra].
  pose proof (QofN_pos Hpos) as Hn.
  assert (Hcount : (length (filter mask xs) <= length xs)%nat)
    by apply filter_length_le.
  assert (Hc0 : 0 <= QofN (length (filter mask xs))).
  { unfold QofN. change 0 with (inject_Z 0). rewrite <- Zle_Qle. lia. }
  assert (Hcn : QofN (length (filter mask xs)) <= QofN (length xs)).
  { unfold QofN. rewrite <- Zle_Qle. lia. }
  set (c := QofN (length (filter mask xs))) in *.
  set (n := QofN (length xs)) in *.
  assert (Hq : 0 <= c / n <= 1).
  { split.
    - apply Qle_shift_div_l; [exact Hn|lra].
    - apply Qle_shift_div_r; [exact Hn|lra]. }
  lra.
Qed.

(** The power-unit stress and the efficiency score are within [0, 100]. *)
Lemma energy_scores_bounded (t : telemetry) :
  0 <= puStress (get_energy_analysis t) <= 100 /\
  0 <= efficiencyScore (get_energy_analysis t) <= 100.
Proof.
  unfold get_energy_analysis. cbn [puStress efficiencyScore].
  pose proof (pct_bounds (fun x => Qle_bool 95 x) (values (Throttle t))) as Hft.
  pose proof (pct_bounds (fun x => Qle_bool x 20) (values (Throttle t))) as Hlc.
  set (ft := pct _ _) in *. set (lc := pct _ _) in *.
  split; split.
  - apply Q.min_glb; lra.
  - apply Q.le_min_l.
  - apply Q.min_glb; [lra|apply Q.le_max_l].
  - apply Q.le_min_l.
Qed.

(** The downforce index is at most 100; nothing bounds it from below. *)
Lemma downforce_index_le_100 (t : telemetry) (d : downforce_analysis) :
  get_downforce_analysis t = Ok d -> downforceIndex d <= 100.
Proof.
  unfold get_downforce_analysis. intro H. do 2 inv_bind H.
  injection H as <-. cbn [downforceIndex]. apply Q.le_min_l.
Qed.

(* ================================================================== *)
(** * Part V: further properties of the analysers *)
(* ================================================================== *)

(** ** Reported corners *)

Lemma candidate_inv_delta (speed distance brake throttle : list Q)
    (i number : nat) (c : corner) (a e : nat) :
  candidate speed distance brake throttle i number = Ok (Accepted c a e) ->
  25 < speedDelta c /\
  speedDelta c = bp_speed (brakePoint c) - apex_minSpeed (apex c) /\
  type c = classify (apex_minSpeed (apex c)) /\
  find_apex speed i = Ok a /\
  find_exit speed throttle a = Ok e /\
  getitem speed a = Ok (apex_minSpeed (apex c)) /\
  getitem distance a = Ok (apex_distance (apex c)) /\
  getitem distance e = Ok (exit_distance (exit c)) /\
  getitem speed e = Ok (exit_speed (exit c)) /\
  getitem throttle e = Ok (exit_throttle (exit c)).
Proof.
  unfold candidate. intro H. do 5 inv_bind H.
  destruct (Qlt_bool 25 (x2 - x3)) eqn:Hdelta; [|discriminate].
  apply Qlt_bool_iff in Hdelta.
  inv_bind H. injection H as <- <- <-.
  unfold corner_data in Hx4. do 8 inv_bind Hx4. injection Hx4 as <-.
  cbn [speedDelta brakePoint apex exit type bp_speed apex_minSpeed
       apex_distance exit_distance exit_speed exit_throttle].
  assert (x6 = x2) by congruence. assert (x9 = x3) by congruence. subst.
  repeat split; assumption.
Qed.

(** X1. The fields of a reported corner agree with each other. *)
Theorem reported_corner_fields
    (t : telemetry) (corners : list corner) (c : corner) :
  get_corner_analysis t = Ok corners ->
  In c corners ->
  25 < speedDelta c /\
  speedDelta c = bp_speed (brakePoint c) - apex_minSpeed (apex c) /\
  (type c = slow <-> apex_minSpeed (apex c) < 100) /\
  (type c = medium <->
     100 <= apex_minSpeed (apex c) /\ apex_minSpeed (apex c) < 180) /\
  (type c = fast <-> 180 <= apex_minSpeed (apex c)).
Proof.
  unfold get_corner_analysis, corner_scan. intros Hrun Hin.
  destruct (corner_loop_provenance _ _ _ _ _ _ _ _ Hrun c Hin)
    as [[] | (i & a & e & Hi & Hcand)].
  apply candidate_inv_delta in Hcand as (Hd & Heq & Hty & _).
  split; [exact Hd|]. split; [exact Heq|].
  rewrite Hty. unfold classify.
  destruct (Qlt_bool (apex_minSpeed (apex c)) 100) eqn:H100;
    [apply Qlt_bool_iff in H100 | apply Qlt_bool_false in H100];
    (destruct (Qlt_bool (apex_minSpeed (apex c)) 180) eqn:H180;
      [apply Qlt_bool_iff in H180 | apply Qlt_bool_false in H180]);
    repeat split; intros; try discriminate; try reflexivity; try lra.
Qed.

(** The apex loop keeps the first minimum of the samples read so far. *)
Lemma apex_loop_inv (speed : list Q) (lo n : nat) :
  forall (j a : nat) (ms : Q) (k : nat),
    apex_loop speed j n a ms = Ok k ->
    nth_error speed a = Some ms ->
    (lo <= a <= j)%nat ->
    (forall m v, (lo <= m < j)%nat -> nth_error speed m = Some v -> ms <= v) ->
    (forall m v, (lo <= m < a)%nat -> nth_error speed m = Some v -> ms < v) ->
    exists mk,
      nth_error speed k = Some mk /\
      (lo <= k)%nat /\ (k = a \/ (j <= k < j + n)%nat) /\
      (forall m v, (lo <= m < j + n)%nat -> nth_error speed m = Some v -> mk <= v) /\
      (forall m v, (lo <= m < k)%nat -> nth_error speed m = Some v -> mk < v).
Proof.
  induction n as [|n IH]; intros j a ms k Hrun Ha Hlo Hmin Hfirst;
    cbn [apex_loop] in Hrun.
  - injection Hrun as <-. exists ms.
    split; [exact Ha|]. split; [lia|]. split; [now left|].
    split; [|exact Hfirst]. intros m v Hm. apply Hmin. lia.
  - inv_bind Hrun. apply getitem_Ok in Hx.
    destruct (Qlt_bool x ms) eqn:Hlt;
      [apply Qlt_bool_iff in Hlt | apply Qlt_bool_false in Hlt].
    + destruct (IH (S j) j x k Hrun Hx) as (mk & Hk & Hlok & Hrange & Hall & Hfst).
      * lia.
      * intros m v Hm Hv. destruct (Nat.eq_dec m j) as [->|].
        -- assert (v = x) by congruence. subst. lra.
        -- assert (ms <= v) by (apply (Hmin m); [lia|exact Hv]). lra.
      * intros m v Hm Hv.
        assert (ms <= v) by (apply (Hmin m); [lia|exact Hv]). lra.
      * exists mk. split; [exact Hk|]. split; [exact Hlok|].
        split; [right; lia|]. split; [|exact Hfst].
        intros m v Hm. apply Hall. lia.
    + destruct (IH (S j) a ms k Hrun Ha) as (mk & Hk & Hlok & Hrange & Hall & Hfst).
      * lia.
      * intros m v Hm Hv. destruct (Nat.eq_dec m j) as [->|].
        -- assert (v = x) by congruence. subst. exact Hlt.
        -- apply (Hmin m); [lia|exact Hv].
      * exact Hfirst.
      * exists mk. split; [exact Hk|]. split; [exact Hlok|].
        split; [destruct Hrange; [now left|right; lia]|]. split; [|exact Hfst].
        intros m v Hm. apply Hall. lia.
Qed.

Lemma find_apex_inv (speed : list Q) (i a : nat) :
  find_apex speed i = Ok a ->
  exists ma,
    nth_error speed a = Some ma /\
    (i <= a)%nat /\ (a < i + 40)%nat /\
    (forall m v, (i <= m < Nat.min (i + 40) (length speed))%nat ->
                 nth_error speed m = Some v -> ma <= v) /\
    (forall m v, (i <= m < a)%nat -> nth_error speed m = Some v -> ma < v).
Proof.
  unfold find_apex. intro H. inv_bind H.
  pose proof (getitem_bound _ _ Hx) as Hi. apply getitem_Ok in Hx.
  destruct (@apex_loop_inv speed i _ i i x a H Hx)
    as (ma & Ha & Hlo & Hrange & Hall & Hfst).
  - lia.
  - intros; lia.
  - intros; lia.
  - exists ma. split; [exact Ha|]. split; [exact Hlo|]. split; [lia|].
    split; [|exact Hfst]. intros m v Hm. apply Hall. lia.
Qed.

(** X2. The apex of a reported corner is the first minimum of the speed over
    the 40 samples from the scan index on. *)
Theorem reported_apex_is_first_minimum
    (t : telemetry) (corners : list corner) (c : corner) :
  let speed := values (Speed t) in
  get_corner_analysis t = Ok corners ->
  In c corners ->
  exists i a,
    (20 < i)%nat /\ (i <= a < i + 40)%nat /\
    find_apex speed i = Ok a /\
    nth_error speed a = Some (apex_minSpeed (apex c)) /\
    nth_error (values (Distance t)) a = Some (apex_distance (apex c)) /\
    (forall m v, (i <= m < i + 40)%nat -> nth_error speed m = Some v ->
                 apex_minSpeed (apex c) <= v) /\
    (forall m v, (i <= m < a)%nat -> nth_error speed m = Some v ->
                 apex_minSpeed (apex c) < v).
Proof.
  cbn zeta. unfold get_corner_analysis, corner_scan. intros Hrun Hin.
  destruct (corner_loop_provenance _ _ _ _ _ _ _ _ Hrun c Hin)
    as [[] | (i & a & e & Hi & Hcand)].
  apply candidate_inv_delta in Hcand
    as (_ & _ & _ & Hapex & _ & Hsa & Hda & _).
  apply getitem_Ok in Hsa, Hda.
  destruct (find_apex_inv _ _ Hapex) as (ma & Ha & Hlo & Hhi & Hall & Hfst).
  assert (ma = apex_minSpeed (apex c)) by congruence. subst ma.
  exists i, a. split; [exact Hi|]. split; [lia|]. split; [exact Hapex|].
  split; [exact Hsa|]. split; [exact Hda|]. split; [|exact Hfst].
  intros m v Hm Hv. apply (Hall m); [|exact Hv].
  assert (m < length (values (Speed t)))%nat
    by (apply nth_error_Some; congruence).
  lia.
Qed.

Lemma exit_loop_inv (speed throttle : list Q) (a n : nat) :
  forall (j dflt k : nat),
    exit_loop speed throttle a j n dflt = Ok k ->
    ((j <= k < j + n)%nat /\ exits_at speed throttle a k /\
     forall m, (j <= m < k)%nat -> ~ exits_at speed throttle a m)
    \/ (k = dflt /\ forall m, (j <= m < j + n)%nat -> ~ exits_at speed throttle a m).
Proof.
  induction n as [|n IH]; intros j dflt k H; cbn [exit_loop] in H.
  - injection H as <-. right. split; [reflexivity|]. intros; lia.
  - inv_bind H. apply getitem_Ok in Hx.
    assert (Hnext : forall (Hno : ~ exits_at speed throttle a j),
              exit_loop speed throttle a (S j) n dflt = Ok k ->
              ((j <= k < j + S n)%nat /\ exits_at speed throttle a k /\
               forall m, (j <= m < k)%nat -> ~ exits_at speed throttle a m)
              \/ (k = dflt /\
                  forall m, (j <= m < j + S n)%nat -> ~ exits_at speed throttle a m)).
    { intros Hno Hrun. destruct (IH _ _ _ Hrun) as [(Hr & He & Hf) | (Hd & Hnone)].
      - left. split; [lia|]. split; [exact He|].
        intros m Hm. destruct (Nat.eq_dec m j) as [->|]; [exact Hno|].
        apply Hf. lia.
      - right. split; [exact Hd|].
        intros m Hm. destruct (Nat.eq_dec m j) as [->|]; [exact Hno|].
        apply Hnone. lia. }
    destruct (Qlt_bool 60 x) eqn:Ht;
      [apply Qlt_bool_iff in Ht | apply Qlt_bool_false in Ht].
    + do 2 inv_bind H. apply getitem_Ok in Hx0, Hx1.
      destruct (Qlt_bool (x1 + 15) x0) eqn:Hs;
        [apply Qlt_bool_iff in Hs | apply Qlt_bool_false in Hs].
      * injection H as <-. left. split; [lia|]. split; [|intros; lia].
        exists x, x0, x1. repeat split; assumption.
      * apply Hnext; [|exact H].
        intros (tv & sv & sa & Htv & Hsv & Hsa & _ & Hgt).
        assert (sv = x0) by congruence. assert (sa = x1) by congruence.
        subst. lra.
    + apply Hnext; [|exact H].
      intros (tv & sv & sa & Htv & _ & _ & Hgt & _).
      assert (tv = x) by congruence. subst. lra.
Qed.


(** X4. A lap of at most 70 speed samples, or without a speed column, has no
    corner, whatever the other columns hold. *)
Theorem short_lap_has_no_corner (t : telemetry) :
  (length (values (Speed t)) <= 70)%nat ->
  get_corner_analysis t = Ok [].
Proof.
  intro Hshort. unfold get_corner_analysis, corner_scan. cbn [corner_loop].
  destruct (Nat.ltb_spec (30 + 40) (length (values (Speed t)))); [lia|reflexivity].
Qed.

Lemma short_lap_has_no_corner_witness :
  get_corner_analysis (without_Speed sample_lap) = Ok [].
Proof.
  apply (@short_lap_has_no_corner (without_Speed sample_lap)). cbn. lia.
Defined.

Lemma reported_corner_fields_witness :
  25 < speedDelta sample_corner_1 /\
  speedDelta sample_corner_1
    = bp_speed (brakePoint sample_corner_1) - apex_minSpeed (apex sample_corner_1) /\
  (type sample_corner_1 = slow <-> apex_minSpeed (apex sample_corner_1) < 100) /\
  (type sample_corner_1 = medium <->
     100 <= apex_minSpeed (apex sample_corner_1) /\
     apex_minSpeed (apex sample_corner_1) < 180) /\
  (type sample_corner_1 = fast <-> 180 <= apex_minSpeed (apex sample_corner_1)).
Proof.
  apply (@reported_corner_fields sample_lap
           [sample_corner_1; sample_corner_2] sample_corner_1).
  - vm_compute. reflexivity.
  - left. reflexivity.
Defined.

Lemma reported_apex_is_first_minimum_witness :
  exists i a,
    (20 < i)%nat /\ (i <= a < i + 40)%nat /\
    find_apex lap_speed i = Ok a /\
    nth_error lap_speed a = Some (apex_minSpeed (apex sample_corner_2)) /\
    nth_error lap_distance a = Some (apex_distance (apex sample_corner_2)) /\
    (forall m v, (i <= m < i + 40)%nat -> nth_error lap_speed m = Some v ->
                 apex_minSpeed (apex sample_corner_2) <= v) /\
    (forall m v, (i <= m < a)%nat -> nth_error lap_speed m = Some v ->
                 apex_minSpeed (apex sample_corner_2) < v).
Proof.
  apply (@reported_apex_is_first_minimum sample_lap
           [sample_corner_1; sample_corner_2] sample_corner_2).
  - vm_compute. reflexivity.
  - right. left. reflexivity.
Defined.


(** The scan keeps the apex distances more than [min_corner_distance]
    apart, above 0, and none beyond [last_corner_dist]. *)
Lemma corner_loop_spaced (speed distance brake throttle : list Q) (fuel : nat) :
  nondecreasing distance ->
  forall (i : nat) (corners : list corner) (last : Q) (cs : list corner),
    corner_loop fuel speed distance brake throttle i corners last = Ok cs ->
    StronglySorted spaced (apex_distances corners) ->
    Forall (fun d => 0 < d /\ d <= last) (apex_distances corners) ->
    - min_corner_distance <= last ->
    StronglySorted spaced (apex_distances cs) /\
    Forall (fun d => 0 < d) (apex_distances cs).
Proof.
  intro Hmono.
  induction fuel as [|fuel IH]; intros i corners last cs Hrun Hsorted Hlast Hinit;
    [discriminate|].
  cbn [corner_loop] in Hrun.
  destruct (i + 40 <? length speed)%nat.
  2:{ injection Hrun as <-. split; [exact Hsorted|].
      eapply Forall_impl; [|exact Hlast]. cbn. tauto. }
  destruct (20 <? i)%nat; [|now apply (IH _ _ _ _ Hrun)].
  inv_bind Hrun.
  destruct (Qlt_bool min_speed_drop _); [|now apply (IH _ _ _ _ Hrun)].
  inv_bind Hrun.
  destruct (Qlt_bool min_corner_distance (x0 - last)) eqn:Hfar;
    [|now apply (IH _ _ _ _ Hrun)].
  apply Qlt_bool_iff in Hfar.
  inv_bind Hrun.
  destruct x1 as [c a e|]; [|now apply (IH _ _ _ _ Hrun)].
  inv_bind Hrun.
  apply candidate_inv_delta in Hx1 as (_ & _ & _ & Hapex & _ & _ & Hda & _).
  assert (x1 = apex_distance (apex c)) by congruence. subst x1.
  destruct (find_apex_inv _ _ Hapex) as (_ & _ & Hia & _).
  assert (Hnew : x0 <= apex_distance (apex c)).
  { apply (Hmono i a); [lia| |]; now apply getitem_Ok. }
  unfold min_corner_distance in *.
  apply (IH _ _ _ _ Hrun).
  - unfold apex_distances in *. rewrite map_app. cbn.
    apply StronglySorted_snoc; [exact Hsorted|].
    eapply Forall_impl; [|exact Hlast]. unfold spaced, min_corner_distance.
    cbn. intros d Hd. lra.
  - unfold apex_distances in *. rewrite map_app. cbn.
    apply Forall_app. split.
    + eapply Forall_impl; [|exact Hlast]. cbn. intros d Hd. lra.
    + constructor; [lra|constructor].
  - lra.
Qed.

(** X5. With a non-decreasing distance series, the apex distances of the
    reported corners are positive and more than 150 apart. *)
Theorem apex_distances_spaced (t : telemetry) (corners : list corner) :
  nondecreasing (values (Distance t)) ->
  get_corner_analysis t = Ok corners ->
  StronglySorted spaced (apex_distances corners) /\
  Forall (fun d => 0 < d) (apex_distances corners).
Proof.
  unfold get_corner_analysis, corner_scan. intros Hmono Hrun.
  eapply corner_loop_spaced; [exact Hmono | exact Hrun | | | ].
  - constructor.
  - constructor.
  - lra.
Qed.

Lemma apex_distances_spaced_witness :
  StronglySorted spaced (apex_distances [sample_corner_1; sample_corner_2]) /\
  Forall (fun d => 0 < d) (apex_distances [sample_corner_1; sample_corner_2]).
Proof.
  apply (@apex_distances_spaced sample_lap [sample_corner_1; sample_corner_2]).
  - apply nondecreasingb_sound. vm_compute. reflexivity.
  - vm_compute. reflexivity.
Defined.

(** ** Means, maxima and minima *)


Lemma sumQ_lower (lo : Q) (xs : list Q) :
  Forall (fun x => lo <= x) xs -> QofN (length xs) * lo <= sumQ xs.
Proof.
  induction 1 as [|x xs Hx _ IH]; cbn [length sumQ fold_right].
  - change (QofN 0) with 0. lra.
  - fold (sumQ xs). rewrite QofN_S. lra.
Qed.

Lemma sumQ_upper (hi : Q) (xs : list Q) :
  Forall (fun x => x <= hi) xs -> sumQ xs <= QofN (length xs) * hi.
Proof.
  induction 1 as [|x xs Hx _ IH]; cbn [length sumQ fold_right].
  - change (QofN 0) with 0. lra.
  - fold (sumQ xs). rewrite QofN_S. lra.
Qed.

Lemma length_pos {A : Type} (xs : list A) : xs <> [] -> (0 < length xs)%nat.
Proof. destruct xs; [contradiction|cbn; lia]. Qed.

(** The mean of a non-empty series lies between any bounds of its
    samples. *)
Lemma mean_bounds (lo hi : Q) (xs : list Q) :
  xs <> [] -> Forall (fun x => lo <= x <= hi) xs -> lo <= mean xs <= hi.
Proof.
  intros Hne Hall. unfold mean.
  pose proof (QofN_pos (length_pos Hne)) as Hn.
  split.
  - apply Qle_shift_div_l; [exact Hn|]. rewrite Qmult_comm.
    apply sumQ_lower. eapply Forall_impl; [|exact Hall]. cbn. tauto.
  - apply Qle_shift_div_r; [exact Hn|]. rewrite Qmult_comm.
    apply sumQ_upper. eapply Forall_impl; [|exact Hall]. cbn. tauto.
Qed.

Lemma fold_left_Qmax_ge (xs : list Q) :
  forall acc, acc <= fold_left Qmax xs acc /\
              Forall (fun x => x <= fold_left Qmax xs acc) xs.
Proof.
  induction xs as [|x xs IH]; intro acc; cbn [fold_left].
  - split; [lra|constructor].
  - destruct (IH (Qmax acc x)) as [Hacc Hall].
    pose proof (Q.le_max_l acc x). pose proof (Q.le_max_r acc x).
    split; [lra|]. constructor; [lra|exact Hall].
Qed.

Lemma fold_left_Qmin_le (xs : list Q) :
  forall acc, fold_left Qmin xs acc <= acc /\
              Forall (fun x => fold_left Qmin xs acc <= x) xs.
Proof.
  induction xs as [|x xs IH]; intro acc; cbn [fold_left].
  - split; [lra|constructor].
  - destruct (IH (Qmin acc x)) as [Hacc Hall].
    pose proof (Q.le_min_l acc x). pose proof (Q.le_min_r acc x).
    split; [lra|]. constructor; [lra|exact Hall].
Qed.

Lemma maxQ_upper (xs : list Q) : Forall (fun x => x <= maxQ xs) xs.
Proof.
  destruct xs as [|x xs]; [constructor|]. cbn [maxQ].
  destruct (fold_left_Qmax_ge xs x). now constructor.
Qed.

Lemma minQ_lower (xs : list Q) : Forall (fun x => minQ xs <= x) xs.
Proof.
  destruct xs as [|x xs]; [constructor|]. cbn [minQ].
  destruct (fold_left_Qmin_le xs x). now constructor.
Qed.

Lemma minQ_le_mean (xs : list Q) : xs <> [] -> minQ xs <= mean xs.
Proof.
  intro Hne. unfold mean.
  pose proof (QofN_pos (length_pos Hne)) as Hn.
  apply Qle_shift_div_l; [exact Hn|]. rewrite Qmult_comm.
  apply sumQ_lower, minQ_lower.
Qed.

(** ** Reported brake zones *)

Lemma StronglySorted_firstn {A : Type} (R : A -> A -> Prop) (n : nat) (xs : list A) :
  StronglySorted R xs -> StronglySorted R (firstn n xs).
Proof.
  intro H. revert n. induction H as [|x xs Hs IH Hx]; intros [|n]; cbn;
    try constructor.
  - apply IH.
  - now apply Forall_firstn.
Qed.

Lemma Forall2_StronglySorted {A B : Type} (R : A -> B -> Prop)
    (P : B -> B -> Prop) (Q : A -> A -> Prop) (xs : list A) (ys : list B) :
  (forall x1 y1 x2 y2, R x1 y1 -> R x2 y2 -> P y1 y2 -> Q x1 x2) ->
  Forall2 R xs ys -> StronglySorted P ys -> StronglySorted Q xs.
Proof.
  intros Hstep H. induction H as [|x y xs ys Hxy Hrest IH]; intro Hs.
  - constructor.
  - inversion Hs as [|? ? Hs' Hall]; subst. constructor; [now apply IH|].
    clear - Hstep Hxy Hrest Hall. induction Hrest; constructor.
    + inversion Hall; subst. eapply Hstep; eassumption.
    + apply IHHrest. now inversion Hall.
Qed.

Lemma Forall2_Forall_l {A B : Type} (R : A -> B -> Prop) (P : B -> Prop)
    (Q : A -> Prop) (xs : list A) (ys : list B) :
  (forall x y, R x y -> P y -> Q x) ->
  Forall2 R xs ys -> Forall P ys -> Forall Q xs.
Proof.
  intros Hstep H. induction H; intro Hall; constructor.
  - inversion Hall; subst. eapply Hstep; eassumption.
  - apply IHForall2. now inversion Hall.
Qed.

(** The zones of a successful analysis, with the runs behind them. *)
Lemma brake_analysis_zones (speed distance brake : list Q)
    (throttle : option (list Q)) (r : brake_analysis) :
  length distance = length brake ->
  get_brake_analysis {| Speed := Some speed; Distance := Some distance;
                        Brake := Some brake; Throttle := throttle |} = Ok r ->
  exists spans,
    Forall2 (zone_of brake speed distance) (brakeZones r) spans /\
    Forall (long_run brake) spans /\
    StronglySorted before spans.
Proof.
  intros Hlen Hrun.
  destruct (@brake_zone_scan_spec brake speed distance Hlen)
    as (zones & spans & Hscan & Hz & Hr & Ho & _).
  unfold get_brake_analysis in Hrun.
  cbn [values Speed Distance Brake Throttle] in Hrun.
  rewrite Hscan in Hrun. cbn [bind] in Hrun.
  assert (Hzones : brakeZones r = firstn 10 zones)
    by (injection Hrun as <-; reflexivity).
  rewrite Hzones. exists (firstn 10 spans).
  split; [now apply Forall2_firstn|].
  split; [now apply Forall_firstn|now apply StronglySorted_firstn].
Qed.






(** X7. With a non-decreasing distance series, every reported brake zone
    ends at or after its start, and each zone starts at or after the end of
    the zone before it. *)
Theorem brake_zones_in_distance_order (speed distance brake : list Q)
    (throttle : option (list Q)) (r : brake_analysis) :
  length distance = length brake ->
  nondecreasing distance ->
  get_brake_analysis {| Speed := Some speed; Distance := Some distance;
                        Brake := Some brake; Throttle := throttle |} = Ok r ->
  Forall (fun z => startDistance z <= endDistance z) (brakeZones r) /\
  StronglySorted (fun z1 z2 => endDistance z1 <= startDistance z2) (brakeZones r).
Proof.
  intros Hlen Hmono Hrun.
  destruct (@brake_analysis_zones speed distance brake throttle r Hlen Hrun) as (spans & Hz & Hr & Ho).
  assert (Hfields : forall z se, zone_of brake speed distance z se ->
            nth_error distance (fst se) = Some (startDistance z) /\
            nth_error distance (snd se - 1) = Some (endDistance z)).
  { intros z se Hzone. unfold zone_of, zone_record in Hzone.
    do 2 inv_bind Hzone. injection Hzone as <-. cbn [startDistance endDistance].
    split; now apply getitem_Ok. }
  split.
  - eapply Forall2_Forall_l; [|exact Hz|exact Hr].
    intros z se Hzone ((Hse & _) & _).
    destruct (Hfields _ _ Hzone) as [Hs He].
    apply (Hmono (fst se) (snd se - 1)%nat); [lia|exact Hs|exact He].
  - eapply Forall2_StronglySorted; [|exact Hz|exact Ho].
    intros z1 se1 z2 se2 Hz1 Hz2 Hbefore. unfold before in Hbefore.
    destruct (Hfields _ _ Hz1) as [_ He1]. destruct (Hfields _ _ Hz2) as [Hs2 _].
    apply (Hmono (snd se1 - 1)%nat (fst se2)); [lia|exact He1|exact Hs2].
Qed.

Lemma brake_zones_in_distance_order_witness :
  exists r,
    get_brake_analysis sample_lap = Ok r /\
    Forall (fun z => startDistance z <= endDistance z) (brakeZones r) /\
    StronglySorted (fun z1 z2 => endDistance z1 <= startDistance z2) (brakeZones r).
Proof.
  destruct (get_brake_analysis sample_lap) as [r| |] eqn:Hrun.
  - exists r. split; [reflexivity|].
    apply (@brake_zones_in_distance_order lap_speed lap_distance lap_brake
             (Some lap_throttle) r); [reflexivity| |exact Hrun].
    apply nondecreasingb_sound. vm_compute. reflexivity.
  - vm_compute in Hrun. discriminate.
  - vm_compute in Hrun. discriminate.
Defined.

(** X8. Without a brake column the brake analysis raises [TypeError],
    whatever the other columns hold. *)
Theorem brake_analysis_needs_brake_column (t : telemetry) :
  Brake t = None -> get_brake_analysis t = Raise TypeError.
Proof.
  intro H. unfold get_brake_analysis. rewrite H. reflexivity.
Qed.

Lemma brake_analysis_needs_brake_column_witness :
  get_brake_analysis (without_Brake (constant_lap None)) = Raise TypeError.
Proof.
  apply (@brake_analysis_needs_brake_column (without_Brake (constant_lap None))).
  reflexivity.
Defined.

(** X9. The share of braking samples is within [0, 100] and the average
    brake force over them is not negative. *)
Theorem brake_totals_bounded (t : telemetry) (r : brake_analysis) :
  get_brake_analysis t = Ok r ->
  0 <= totalBrakeTimePercent r <= 100 /\ 0 <= avgBrakeForce r.
Proof.
  unfold get_brake_analysis. intro H. inv_bind H.
  destruct (Brake t) as [b|] eqn:Hb; [|discriminate].
  cbn [bind values] in H. injection H as <-.
  cbn [totalBrakeTimePercent avgBrakeForce]. split.
  - apply (pct_bounds positive b).
  - destruct (existsb positive b) eqn:Hex; [|lra].
    apply existsb_exists in Hex as (b0 & Hin & Hpos).
    assert (Hne : filter positive b <> []).
    { intro Hnil. assert (Hb0 : In b0 (filter positive b))
        by (apply filter_In; split; assumption).
      rewrite Hnil in Hb0. destruct Hb0. }
    apply (mean_bounds (lo := 0) (hi := maxQ (filter positive b)) Hne).
    pose proof (maxQ_upper (filter positive b)) as Hmax.
    apply Forall_forall. intros y Hy. split.
    + apply filter_In in Hy as [_ Hy]. apply Qlt_bool_iff in Hy. lra.
    + rewrite Forall_forall in Hmax. now apply Hmax.
Qed.

Lemma brake_totals_bounded_witness :
  exists r, get_brake_analysis sample_lap = Ok r /\
    0 <= totalBrakeTimePercent r <= 100 /\ 0 <= avgBrakeForce r.
Proof.
  destruct (get_brake_analysis sample_lap) as [r| |] eqn:Hrun.
  - exists r. split; [reflexivity|].
    apply (@brake_totals_bounded sample_lap r). exact Hrun.
  - vm_compute in Hrun. discriminate.
  - vm_compute in Hrun. discriminate.
Defined.

(** ** Throttle shares and application points *)

Lemma Forall_equiv {A : Type} (P R : A -> Prop) (xs : list A) :
  (forall x, P x <-> R x) -> Forall P xs <-> Forall R xs.
Proof.
  intro H. split; apply Forall_impl; intro x; apply H.
Qed.

(** A share is zero exactly when its mask holds for no sample. *)
Lemma pct_zero (mask : Q -> bool) (xs : list Q) :
  pct mask xs == 0 <-> Forall (fun x => mask x = false) xs.
Proof.
  unfold pct. destruct (Nat.ltb_spec 0 (length xs)) as [Hpos|Hzero].
  - pose proof (QofN_pos Hpos) as Hn.
    assert (Hiff : filter mask xs = [] <-> Forall (fun x => mask x = false) xs).
    { clear. induction xs as [|x xs IH]; cbn [filter].
      - split; [constructor|reflexivity].
      - destruct (mask x) eqn:Hm.
        + split; [discriminate|]. intro H. inversion H; subst. congruence.
        + rewrite IH. split; [now constructor|]. intro H. now inversion H. }
    rewrite <- Hiff. split.
    + intro Hq. destruct (filter mask xs) as [|y ys]; [reflexivity|exfalso].
      assert (Hc : 0 < QofN (length (y :: ys))) by (apply QofN_pos; cbn; lia).
      set (c := QofN (length (y :: ys))) in *.
      set (n := QofN (length xs)) in *.
      assert (Hdiv : 0 < c / n) by (apply Qlt_shift_div_l; [exact Hn|lra]).
      lra.
    + intros ->. change (QofN (length [])) with 0. field. lra.
  - destruct xs; [|cbn in Hzero; lia]. split; [constructor|reflexivity].
Qed.

(** X10. Each throttle share lies within [0, 100] and is zero exactly when
    no sample falls in its class: at or above 95 for full throttle,
    strictly between 20 and 95 for partial throttle, at or below 20 for
    coasting.  Without throttle samples the trace holds three zeros and no
    application point. *)
Theorem throttle_shares_by_class (t : telemetry) (r : throttle_trace) :
  get_throttle_trace t = Ok r ->
  (0 <= fullThrottlePct r <= 100 /\
   0 <= partialThrottlePct r <= 100 /\
   0 <= coastPct r <= 100) /\
  (fullThrottlePct r == 0 <->
     Forall (fun x => x < 95) (values (Throttle t))) /\
  (partialThrottlePct r == 0 <->
     Forall (fun x => x <= 20 \/ 95 <= x) (values (Throttle t))) /\
  (coastPct r == 0 <->
     Forall (fun x => 20 < x) (values (Throttle t))) /\
  (values (Throttle t) = [] ->
     fullThrottlePct r = 0 /\ partialThrottlePct r = 0 /\ coastPct r = 0 /\
     throttleApplicationPoints r = []).
Proof.
  unfold get_throttle_trace. intro H. inv_bind H. injection H as <-.
  cbn [fullThrottlePct partialThrottlePct coastPct throttleApplicationPoints].
  split; [split; [|split]; apply pct_bounds|].
  split; [|split; [|split]].
  - rewrite pct_zero. apply Forall_equiv. intro y.
    destruct (Qle_bool 95 y) eqn:Hy.
    + apply Qle_bool_iff in Hy. split; [discriminate|intro; exfalso; lra].
    + split; [intros _|reflexivity].
      apply Qnot_le_lt. intro Hle. apply Qle_bool_iff in Hle. congruence.
  - rewrite pct_zero. apply Forall_equiv. intro y.
    destruct (Qlt_bool 20 y) eqn:H20; destruct (Qlt_bool y 95) eqn:H95;
      cbn [andb].
    + apply Qlt_bool_iff in H20, H95.
      split; [discriminate|intros [Hle|Hle]; exfalso; lra].
    + split; [intros _|reflexivity]. right.
      apply Qnot_lt_le. intro Hlt. apply Qlt_bool_iff in Hlt. congruence.
    + split; [intros _|reflexivity]. left.
      apply Qnot_lt_le. intro Hlt. apply Qlt_bool_iff in Hlt. congruence.
    + split; [intros _|reflexivity]. left.
      apply Qnot_lt_le. intro Hlt. apply Qlt_bool_iff in Hlt. congruence.
  - rewrite pct_zero. apply Forall_equiv. intro y.
    destruct (Qle_bool y 20) eqn:Hy.
    + apply Qle_bool_iff in Hy. split; [discriminate|intro; exfalso; lra].
    + split; [intros _|reflexivity].
      apply Qnot_le_lt. intro Hle. apply Qle_bool_iff in Hle. congruence.
  - intro Hnil. rewrite Hnil in *. cbn in Hx. injection Hx as <-.
    repeat split.
Qed.

Lemma throttle_shares_by_class_witness :
  exists r, get_throttle_trace sample_lap = Ok r /\
  (0 <= fullThrottlePct r <= 100 /\
   0 <= partialThrottlePct r <= 100 /\
   0 <= coastPct r <= 100) /\
  (fullThrottlePct r == 0 <->
     Forall (fun x => x < 95) (values (Throttle sample_lap))) /\
  (partialThrottlePct r == 0 <->
     Forall (fun x => x <= 20 \/ 95 <= x) (values (Throttle sample_lap))) /\
  (coastPct r == 0 <->
     Forall (fun x => 20 < x) (values (Throttle sample_lap))) /\
  (values (Throttle sample_lap) = [] ->
     fullThrottlePct r = 0 /\ partialThrottlePct r = 0 /\ coastPct r = 0 /\
     throttleApplicationPoints r = []).
Proof.
  destruct (get_throttle_trace sample_lap) as [r| |] eqn:Hrun.
  - exists r. split; [reflexivity|].
    apply (@throttle_shares_by_class sample_lap r). exact Hrun.
  - vm_compute in Hrun. discriminate.
  - vm_compute in Hrun. discriminate.
Defined.

(** X11. With a distance column as long as the throttle column the throttle
    trace returns, and its application points are the samples at the first
    15 indices, in increasing order, among 1 .. len-2 at which the throttle
    rises from below 50 to 50 or more. *)
Theorem application_points_are_crossings
    (throttle distance : list Q) (speed brake : option (list Q)) :
  length distance = length throttle ->
  exists (r : throttle_trace) (idxs : list nat),
    get_throttle_trace {| Speed := speed; Distance := Some distance;
                          Brake := brake; Throttle := Some throttle |} = Ok r /\
    StronglySorted lt idxs /\
    (forall k, In k idxs <-> crossing throttle k /\ (k + 1 < length throttle)%nat) /\
    Forall2 (point_at throttle distance)
            (throttleApplicationPoints r) (firstn 15 idxs) /\
    (length (throttleApplicationPoints r) <= 15)%nat /\
    Forall (fun p => 50 <= throttleLevel p) (throttleApplicationPoints r).
Proof.
  intro Hlen.
  destruct (@throttle_points_spec throttle distance Hlen speed brake)
    as (r & idxs & Hrun & Hsorted & Hin & Hpts).
  exists r, idxs. repeat (split; [assumption|]).
  split.
  - rewrite (Forall2_length Hpts). apply firstn_le_length.
  - assert (Hcross : Forall (crossing throttle) (firstn 15 idxs)).
    { apply Forall_firstn, Forall_forall. intros k Hk. now apply Hin in Hk. }
    eapply Forall2_Forall_l; [|exact Hpts|exact Hcross].
    intros p k [_ Hlevel] (_ & pv & cv & _ & Hc & _ & Hge).
    apply getitem_Ok in Hlevel.
    assert (cv = throttleLevel p) by congruence. now subst.
Qed.

Lemma application_points_are_crossings_witness :
  exists (r : throttle_trace) (idxs : list nat),
    get_throttle_trace sample_lap = Ok r /\
    StronglySorted lt idxs /\
    (forall k, In k idxs <->
               crossing lap_throttle k /\ (k + 1 < length lap_throttle)%nat) /\
    Forall2 (point_at lap_throttle lap_distance)
            (throttleApplicationPoints r) (firstn 15 idxs) /\
    (length (throttleApplicationPoints r) <= 15)%nat /\
    Forall (fun p => 50 <= throttleLevel p) (throttleApplicationPoints r).
Proof.
  apply (@application_points_are_crossings lap_throttle lap_distance
           (Some lap_speed) (Some lap_brake)).
  reflexivity.
Defined.

(** ** Gear usage *)

Lemma QofN_le (a b : nat) : (a <= b)%nat -> QofN a <= QofN b.
Proof.
  intro H. unfold QofN. rewrite <- Zle_Qle. lia.
Qed.

(** The share of a gear is zero exactly when no sample is in that gear. *)
Lemma gear_pct_zero (gear : list Z) (g : Z) :
  gear_pct gear g == 0 <-> ~ In g gear.
Proof.
  unfold gear_pct.
  assert (Hiff : filter (fun x => Z.eqb x g) gear = [] <-> ~ In g gear).
  { induction gear as [|x xs IH]; cbn [filter In].
    - split; [auto|reflexivity].
    - destruct (Z.eqb_spec x g) as [->|Hne].
      + split; [discriminate|]. intro H. exfalso. apply H. now left.
      + rewrite IH. split; [intros H [Heq|Hin]; auto|]. intros H Hin. apply H. now right. }
  destruct (Nat.ltb_spec 0 (length gear)) as [Hpos|Hzero].
  - pose proof (QofN_pos Hpos) as Hn. rewrite <- Hiff. split.
    + intro Hq.
      destruct (filter (fun x => Z.eqb x g) gear) as [|y ys]; [reflexivity|exfalso].
      assert (Hc : 0 < QofN (length (y :: ys))) by (apply QofN_pos; cbn; lia).
      set (c := QofN (length (y :: ys))) in *.
      set (n := QofN (length gear)) in *.
      assert (Hdiv : 0 < c / n) by (apply Qlt_shift_div_l; [exact Hn|lra]).
      lra.
    + intros ->. change (QofN (length [])) with 0. field. lra.
  - destruct gear; [|cbn in Hzero; lia]. split; [auto|reflexivity].
Qed.

(** X12. The gear summary has one share for each gear 1 to 8, each within
    [0, 100]; the share of a gear is zero exactly when no sample of the
    column is in that gear, so an empty or absent column gives eight
    zeros. *)
Theorem gear_usage_shares (nGear : option (list Z)) :
  let gear := match nGear with Some xs => xs | None => [] end in
  let usage := get_gear_usage nGear in
  map fst usage = [1; 2; 3; 4; 5; 6; 7; 8]%Z /\
  Forall (fun p => 0 <= snd p <= 100) usage /\
  Forall (fun p => snd p == 0 <-> ~ In (fst p) gear) usage /\
  (gear = [] ->
     usage = map (fun g : Z => (g, 0)) [1; 2; 3; 4; 5; 6; 7; 8]%Z).
Proof.
  cbn zeta. unfold get_gear_usage.
  set (gear := match nGear with Some xs => xs | None => [] end).
  split; [reflexivity|].
  split; [|split].
  - apply Forall_forall. intros p Hp. apply in_map_iff in Hp as (g & <- & _).
    cbn [snd]. unfold gear_pct.
    destruct (Nat.ltb_spec 0 (length gear)) as [Hpos|]; [|lra].
    pose proof (QofN_pos Hpos) as Hn.
    pose proof (QofN_le (filter_length_le (fun x => Z.eqb x g) gear)) as Hcn.
    pose proof (QofN_le (Nat.le_0_l (length (filter (fun x => Z.eqb x g) gear))))
      as Hc0.
    change (QofN 0) with 0 in Hc0.
    set (c := QofN (length (filter (fun x => Z.eqb x g) gear))) in *.
    set (n := QofN (length gear)) in *.
    assert (0 <= c / n <= 1).
    { split; [apply Qle_shift_div_l|apply Qle_shift_div_r]; lra. }
    lra.
  - apply Forall_forall. intros p Hp. apply in_map_iff in Hp as (g & <- & _).
    cbn [fst snd]. apply gear_pct_zero.
  - intros ->. reflexivity.
Qed.

Lemma gear_usage_shares_witness :
  get_gear_usage (Some [])
  = map (fun g : Z => (g, 0)) [1; 2; 3; 4; 5; 6; 7; 8]%Z.
Proof.
  apply (proj2 (proj2 (proj2 (gear_usage_shares (Some []))))).
  reflexivity.
Defined.

Example gear_usage_with_neutral :
  sumQ (map snd (get_gear_usage (Some [0; 1; 2; 2]%Z))) == 75.
Proof. vm_compute. reflexivity. Qed.

(** ** Ranges of the downforce and energy estimates *)

Lemma sumQ_nonneg (xs : list Q) : Forall (fun x => 0 <= x) xs -> 0 <= sumQ xs.
Proof.
  intro H. pose proof (sumQ_lower H) as Hlow. lra.
Qed.

Lemma mean_nonneg (xs : list Q) : Forall (fun x => 0 <= x) xs -> 0 <= mean xs.
Proof.
  intro H. destruct xs as [|x xs]; [vm_compute; discriminate|].
  assert (Hne : x :: xs <> []) by discriminate.
  apply (mean_bounds (lo := 0) (hi := maxQ (x :: xs)) Hne).
  pose proof (maxQ_upper (x :: xs)) as Hmax.
  rewrite Forall_forall in *. intros y Hy. split; [now apply H|now apply Hmax].
Qed.

Lemma var_nonneg (xs : list Q) : 0 <= var xs.
Proof.
  unfold var. apply mean_nonneg, Forall_forall.
  intros y Hy. apply in_map_iff in Hy as (x & <- & _). apply Qsquare_nonneg.
Qed.

Lemma masked_mean_nonneg (mask : Q -> bool) (xs : list Q) :
  Forall (fun x => 0 <= x) xs ->
  0 <= (if existsb mask xs then mean (filter mask xs) else 0).
Proof.
  intro H. destruct (existsb mask xs); [|lra].
  apply mean_nonneg. rewrite Forall_forall in *.
  intros y Hy. apply filter_In in Hy as [Hy _]. now apply H.
Qed.

(** X13. The downforce index never exceeds 100 and the speed variance is
    never negative; when no speed sample is negative, the two averages are
    not negative and the aerodynamic efficiency lies between 0 and the
    high-speed average. *)
Theorem downforce_ranges (t : telemetry) (d : downforce_analysis) :
  get_downforce_analysis t = Ok d ->
  downforceIndex d <= 100 /\
  0 <= speedVariance d /\
  (Forall (fun s => 0 <= s) (values (Speed t)) ->
     0 <= highSpeedAvg d /\ 0 <= lowSpeedAvg d /\
     0 <= aerodynamicEfficiency d <= highSpeedAvg d).
Proof.
  unfold get_downforce_analysis. intro H. do 2 inv_bind H. injection H as <-.
  cbn [downforceIndex speedVariance highSpeedAvg lowSpeedAvg aerodynamicEfficiency].
  set (speed := values (Speed t)).
  assert (Hvar : 0 <= (if (0 <? length speed)%nat then var speed else 0)).
  { destruct (0 <? length speed)%nat; [apply var_nonneg|lra]. }
  split; [apply Q.le_min_l|]. split; [exact Hvar|].
  intro Hpos.
  pose proof (masked_mean_nonneg (fun s => Qlt_bool x s) Hpos) as Hhigh.
  pose proof (masked_mean_nonneg (fun s => Qlt_bool s x0) Hpos) as Hlow.
  split; [exact Hhigh|]. split; [exact Hlow|].
  set (high := if existsb _ speed then _ else 0) in *.
  set (v := if (0 <? length speed)%nat then var speed else 0) in *.
  clearbody high v. split.
  - apply Qle_shift_div_l; lra.
  - apply Qle_shift_div_r; [lra|]. nra.
Qed.

Lemma downforce_ranges_witness :
  exists d, get_downforce_analysis spread_lap = Ok d /\
    downforceIndex d <= 100 /\
    0 <= speedVariance d /\
    (Forall (fun s => 0 <= s) (values (Speed spread_lap)) ->
       0 <= highSpeedAvg d /\ 0 <= lowSpeedAvg d /\
       0 <= aerodynamicEfficiency d <= highSpeedAvg d).
Proof.
  destruct (get_downforce_analysis spread_lap) as [d| |] eqn:Hrun.
  - exists d. split; [reflexivity|].
    apply (@downforce_ranges spread_lap d). exact Hrun.
  - vm_compute in Hrun. discriminate.
  - vm_compute in Hrun. discriminate.
Defined.

(** X14. In the energy analysis the full-throttle share, the lift-and-coast
    share, the power-unit stress and the efficiency score lie within
    [0, 100] and the fuel efficiency within [0.8, 1.1]; the ERS deployment
    is high exactly when the full-throttle share exceeds 70 and low exactly
    when it is at most 50; without brake or speed samples the brake energy
    is 0. *)
Theorem energy_analysis_ranges (t : telemetry) :
  let e := get_energy_analysis t in
  0 <= energyFullThrottlePct e <= 100 /\
  0 <= liftAndCoastPct e <= 100 /\
  0 <= puStress e <= 100 /\
  0 <= efficiencyScore e <= 100 /\
  (8 # 10) <= fuelEfficiency e <= (11 # 10) /\
  (ersDeployment e = high <-> 70 < energyFullThrottlePct e) /\
  (ersDeployment e = low <-> energyFullThrottlePct e <= 50) /\
  (values (Brake t) = [] \/ values (Speed t) = [] ->
     estimatedBrakeEnergy e = 0).
Proof.
  cbn zeta.
  destruct (energy_scores_bounded t) as [Hpu Heff].
  split; [apply pct_bounds|]. split; [apply pct_bounds|].
  split; [exact Hpu|]. split; [exact Heff|].
  unfold get_energy_analysis.
  cbn [energyFullThrottlePct fuelEfficiency ersDeployment estimatedBrakeEnergy].
  pose proof (pct_bounds (fun x => Qle_bool x 20) (values (Throttle t))) as Hlc.
  set (ft := pct (fun x => Qle_bool 95 x) (values (Throttle t))).
  set (lc := pct (fun x => Qle_bool x 20) (values (Throttle t))) in *.
  clearbody ft lc.
  split.
  { assert (Hdiv : lc / 100 == lc * (1 # 100)) by (field; lra).
    rewrite Hdiv. lra. }
  split; [|split].
  - destruct (Qlt_bool 70 ft) eqn:H70.
    + apply Qlt_bool_iff in H70. split; [intros _; exact H70|reflexivity].
    + assert (Hle : ~ 70 < ft)
        by (intro Hlt; apply Qlt_bool_iff in Hlt; congruence).
      destruct (Qlt_bool 50 ft); (split; [discriminate|intro; contradiction]).
  - destruct (Qlt_bool 70 ft) eqn:H70.
    + apply Qlt_bool_iff in H70. split; [discriminate|intro; exfalso; lra].
    + destruct (Qlt_bool 50 ft) eqn:H50.
      * apply Qlt_bool_iff in H50. split; [discriminate|intro; exfalso; lra].
      * split; [intros _|reflexivity].
        apply Qnot_lt_le. intro Hlt. apply Qlt_bool_iff in Hlt. congruence.
  - intros [-> | ->]; [reflexivity|].
    destruct (0 <? length (values (Brake t)))%nat; reflexivity.
Qed.

Lemma energy_analysis_ranges_witness :
  estimatedBrakeEnergy (get_energy_analysis (without_Speed sample_lap)) = 0.
Proof.
  apply (proj2 (proj2 (proj2 (proj2 (proj2 (proj2 (proj2
    (energy_analysis_ranges (without_Speed sample_lap))))))))).
  right. reflexivity.
Defined.

(** ** Race pace entries *)

Lemma insertQ_In (x y : Q) (l : list Q) : In y (insertQ x l) <-> y = x \/ In y l.
Proof.
  induction l as [|z l IH]; cbn [insertQ].
  - cbn. intuition.
  - destruct (Qle_bool x z); cbn [In]; [intuition|].
    rewrite IH. intuition.
Qed.

Lemma sortQ_In (y : Q) (xs : list Q) : In y (sortQ xs) <-> In y xs.
Proof.
  unfold sortQ. induction xs as [|x xs IH]; cbn [fold_right]; [reflexivity|].
  rewrite insertQ_In, IH. cbn. intuition.
Qed.

Lemma length_insertQ (x : Q) (l : list Q) : length (insertQ x l) = S (length l).
Proof.
  induction l as [|z l IH]; cbn [insertQ]; [reflexivity|].
  destruct (Qle_bool x z); cbn [length]; [reflexivity|now rewrite IH].
Qed.

Lemma length_sortQ (xs : list Q) : length (sortQ xs) = length xs.
Proof.
  unfold sortQ. induction xs as [|x xs IH]; cbn [fold_right]; [reflexivity|].
  rewrite length_insertQ. cbn. now rewrite IH.
Qed.

Lemma Qmin_cases (x y : Q) : Qmin x y = x \/ Qmin x y = y.
Proof.
  unfold Qmin, GenericMinMax.gmin. destruct (x ?= y); auto.
Qed.

Lemma fold_left_Qmin_In (xs : list Q) :
  forall acc, fold_left Qmin xs acc = acc \/ In (fold_left Qmin xs acc) xs.
Proof.
  induction xs as [|x xs IH]; intro acc; cbn [fold_left]; [now left|].
  destruct (IH (Qmin acc x)) as [Heq|Hin]; [|right; now right].
  rewrite Heq. destruct (Qmin_cases acc x) as [H|H]; rewrite H; [now left|].
  right. now left.
Qed.

Lemma minQ_In (xs : list Q) : xs <> [] -> In (minQ xs) xs.
Proof.
  destruct xs as [|x xs]; [contradiction|]. intros _. cbn [minQ].
  destruct (fold_left_Qmin_In xs x) as [Heq|Hin]; [left; now rewrite Heq|now right].
Qed.

(** Every value of the sorted series is at least the minimum. *)
Lemma minQ_le_sorted_nth (xs : list Q) (k : nat) :
  (k < length xs)%nat -> minQ xs <= nth k (sortQ xs) 0.
Proof.
  intro Hk. pose proof (minQ_lower xs) as Hmin. rewrite Forall_forall in Hmin.
  apply Hmin, sortQ_In, nth_In. now rewrite length_sortQ.
Qed.

Lemma minQ_le_median (xs : list Q) : xs <> [] -> minQ xs <= median xs.
Proof.
  intro Hne. pose proof (length_pos Hne) as Hpos. unfold median.
  destruct (Nat.even (length xs)) eqn:Heven.
  - apply Nat.even_spec in Heven as [h Hh].
    assert (Hlo : minQ xs <= nth (length xs / 2 - 1) (sortQ xs) 0).
    { apply minQ_le_sorted_nth. rewrite Hh, Nat.mul_comm, Nat.div_mul; lia. }
    assert (Hhi : minQ xs <= nth (length xs / 2) (sortQ xs) 0).
    { apply minQ_le_sorted_nth. rewrite Hh, Nat.mul_comm, Nat.div_mul; lia. }
    apply Qle_shift_div_l; lra.
  - apply minQ_le_sorted_nth. apply Nat.div_lt; lia.
Qed.

Lemma times_of_In (ls : list lap) (x : Q) :
  In x (times_of ls) -> exists l, In l ls /\ LapTime l = Some x.
Proof.
  unfold times_of. intro H. apply in_flat_map in H as (l & Hl & Hx).
  exists l. split; [exact Hl|].
  destruct (LapTime l) as [y|]; [|destruct Hx].
  destruct Hx as [->|[]]. reflexivity.
Qed.

(** X15. In every entry of the pace comparison the best pace is one of the
    driver's lap times and exceeds neither the average nor the median
    pace. *)
Theorem race_pace_best_is_least
    (session_laps : list lap) (drivers : list string) :
  Forall (fun p =>
            bestPace p <= avgPace p /\ bestPace p <= medianPace p /\
            exists l, In l session_laps /\ Driver l = driver p /\
                      LapTime l = Some (bestPace p))
         (get_race_pace session_laps drivers).
Proof.
  unfold get_race_pace.
  induction drivers as [|d rest IH]; cbn [pace_loop]; [constructor|].
  destruct (0 <? length (dropna_LapTime (laps_of session_laps d)))%nat eqn:Hvalid;
    [|exact IH].
  rewrite pace_loop_acc. cbn [app]. constructor; [|exact IH].
  cbn [bestPace avgPace medianPace driver].
  apply Nat.ltb_lt in Hvalid.
  set (valid := dropna_LapTime (laps_of session_laps d)) in *.
  assert (Hne : times_of valid <> []).
  { intro Hnil. apply (f_equal (@length Q)) in Hnil. unfold valid in Hnil.
    rewrite length_times_of_dropna in Hnil. cbn in Hnil. fold valid in Hnil. lia. }
  split; [now apply minQ_le_mean|]. split; [now apply minQ_le_median|].
  destruct (times_of_In _ _ (minQ_In Hne)) as (l & Hl & Htime).
  exists l. unfold valid, dropna_LapTime, laps_of in Hl.
  apply filter_In in Hl as [Hl _]. apply filter_In in Hl as [Hl Hd].
  apply String.eqb_eq in Hd. repeat split; assumption.
Qed.

Example race_pace_sample_entry :
  exists p, get_race_pace pace_session ["VER"%string] = [p] /\
    bestPace p == 90 /\ avgPace p == 181 # 2 /\ medianPace p == 181 # 2 /\
    totalLaps p = 2%nat.
Proof.
  eexists. split; [reflexivity|]. repeat split; vm_compute; reflexivity.
Qed.

(** ** Tire-wear heuristics *)

(** X17. The tire is optimal below age 10 and critical from age 20 on; the
    remaining life is 0 exactly from age 30 on, which is also exactly when
    the wear level reaches 100, and the temperature impact reaches 100
    exactly from age 40 on; for an age that is not negative the remaining
    life is within [0, 30] and the temperature impact and wear level
    within [0, 100]. *)
Theorem tire_wear_ranges (tire_age : Z) :
  let w := tire_wear_of tire_age in
  (performance w = critical <-> (20 <= tire_age)%Z) /\
  (performance w = optimal <-> (tire_age < 10)%Z) /\
  (estimatedLifeRemaining w = 0%Z <-> (30 <= tire_age)%Z) /\
  (wearLevel w == 100 <-> (30 <= tire_age)%Z) /\
  (tempImpact w == 100 <-> (40 <= tire_age)%Z) /\
  ((0 <= tire_age)%Z ->
     (0 <= estimatedLifeRemaining w <= 30)%Z /\
     0 <= tempImpact w <= 100 /\
     0 <= wearLevel w <= 100).
Proof.
  cbn zeta. unfold tire_wear_of.
  cbn [wearLevel estimatedLifeRemaining performance tempImpact].
  assert (Hdiv : inject_Z tire_age / 30 * 100 == inject_Z tire_age * (10 # 3))
    by (field; lra).
  split; [|split; [|split; [|split; [|split]]]].
  - destruct (Z.ltb_spec tire_age 10); [split; [discriminate|lia]|].
    destruct (Z.ltb_spec tire_age 20); split; try discriminate; try lia; reflexivity.
  - destruct (Z.ltb_spec tire_age 10); [split; [lia|reflexivity]|].
    destruct (Z.ltb_spec tire_age 20); split; try discriminate; lia.
  - lia.
  - rewrite Hdiv. destruct (Z.le_gt_cases 30 tire_age) as [Hge|Hlt].
    + split; [intros _; exact Hge|intros _].
      rewrite Zle_Qle in Hge. change (inject_Z 30) with 30 in Hge.
      apply Q.min_l. lra.
    + split; [|lia]. intro Hmin. exfalso.
      rewrite Zlt_Qlt in Hlt. change (inject_Z 30) with 30 in Hlt.
      rewrite Q.min_r in Hmin by lra. lra.
  - destruct (Z.le_gt_cases 40 tire_age) as [Hge|Hlt].
    + split; [intros _; exact Hge|intros _].
      rewrite Zle_Qle in Hge. change (inject_Z 40) with 40 in Hge.
      apply Q.min_l. lra.
    + split; [|lia]. intro Hmin. exfalso.
      rewrite Zlt_Qlt in Hlt. change (inject_Z 40) with 40 in Hlt.
      rewrite Q.min_r in Hmin by lra. lra.
  - intro Hage. split; [lia|].
    rewrite Zle_Qle in Hage. change (inject_Z 0) with 0 in Hage.
    split; (split; [apply Q.min_glb; [lra|] | apply Q.le_min_l]).
    + lra.
    + rewrite Hdiv. lra.
Qed.

Lemma tire_wear_ranges_witness :
  (0 <= estimatedLifeRemaining (tire_wear_of 12) <= 30)%Z /\
  0 <= tempImpact (tire_wear_of 12) <= 100 /\
  0 <= wearLevel (tire_wear_of 12) <= 100.
Proof.
  apply (proj2 (proj2 (proj2 (proj2 (proj2 (tire_wear_ranges 12)))))). lia.
Defined.

(** ** Command dispatch *)

Ltac read_argv :=
  unfold arg;
  repeat match goal with
  | |- context [nth_error ?argv ?k] =>
      let E := fresh "E" in
      destruct (nth_error argv k) eqn:E;
      [| apply nth_error_None in E; lia ]
  end.

Lemma four_args_in_range (argv : list string) (usage : string)
    (handler : string -> string -> string -> string -> call) :
  four_args argv usage handler <> ArgvIndexError.
Proof.
  unfold four_args. destruct (Nat.ltb_spec (length argv) 6); [discriminate|].
  read_argv. discriminate.
Qed.

Lemma five_args_in_range (argv : list string) (usage : string)
    (handler : string -> string -> string -> string -> string -> call) :
  five_args argv usage handler <> ArgvIndexError.
Proof.
  unfold five_args. destruct (Nat.ltb_spec (length argv) 7); [discriminate|].
  read_argv. discriminate.
Qed.

(** The two optional reads of the [telemetry] command. *)
Ltac read_optional_argv :=
  unfold optional_arg;
  repeat match goal with
  | |- context [(?k <? length ?argv)%nat] =>
      destruct (Nat.ltb_spec k (length argv))
  end;
  read_argv.

(** X18. Every [sys.argv[k]] that [main] reads is guarded by a length test:
    no argument list makes the dispatch subscript out of range. *)
Theorem dispatch_reads_argv_in_range (argv : list string) :
  dispatch argv <> ArgvIndexError.
Proof.
  unfold dispatch.
  destruct (Nat.ltb_spec (length argv) 2); [discriminate|].
  unfold arg at 1. destruct (nth_error argv 1) as [command|] eqn:Hc;
    [|apply nth_error_None in Hc; lia].
  repeat match goal with
  | |- context [String.eqb command ?s] => destruct (String.eqb command s)
  end;
  try apply four_args_in_range; try apply five_args_in_range;
  try discriminate;
  match goal with
  | |- context [(length argv <? ?n)%nat] =>
      destruct (Nat.ltb_spec (length argv) n); [discriminate|]
  end;
  read_argv; try discriminate.
  read_optional_argv; discriminate.
Qed.

(** X19. A dispatched race-pace or session request never carries an empty
    driver list, and a telemetry request never carries a second lap
    without a second driver. *)
Theorem dispatch_optional_arguments (argv : list string) (c : call) :
  dispatch argv = Call c ->
  match c with
  | call_race_pace _ _ _ drivers => drivers = skipn 5 argv /\ drivers <> []
  | call_session _ _ _ (Some drivers) => drivers = skipn 5 argv /\ drivers <> []
  | call_telemetry _ _ _ _ _ driver2 lap2 => lap2 <> None -> driver2 <> None
  | _ => True
  end.
Proof.
  assert (Hskip : (5 < length argv)%nat -> skipn 5 argv <> []).
  { intros Hlen Hnil. apply (f_equal (@length string)) in Hnil.
    rewrite length_skipn in Hnil. cbn in Hnil. lia. }
  unfold dispatch, four_args, five_args.
  destruct (Nat.ltb_spec (length argv) 2); [discriminate|].
  unfold arg at 1. destruct (nth_error argv 1) as [command|]; [|discriminate].
  repeat match goal with
  | |- context [String.eqb command ?s] => destruct (String.eqb command s)
  end;
  try discriminate;
  match goal with
  | |- context [(length argv <? ?n)%nat] =>
      destruct (Nat.ltb_spec (length argv) n); [discriminate|]
  end;
  read_argv.
  1: { intro Hcall; injection Hcall as <-. fold (@skipn string 5 argv).
       destruct (Nat.ltb_spec 5 (length argv)); [|exact I].
       split; [reflexivity|auto]. }
  1: { read_optional_argv; try lia;
         intro Hcall; injection Hcall as <-; congruence. }
  all: intro Hcall; injection Hcall as <-; try exact I.
  fold (@skipn string 5 argv). split; [reflexivity|]. apply Hskip. lia.
Qed.

Lemma dispatch_optional_arguments_witness :
  skipn 5 ["prog"; "race-pace"; "2024"; "Monza"; "R"; "VER"; "HAM"]%string
    = skipn 5 ["prog"; "race-pace"; "2024"; "Monza"; "R"; "VER"; "HAM"]%string /\
  skipn 5 ["prog"; "race-pace"; "2024"; "Monza"; "R"; "VER"; "HAM"]%string <> [].
Proof.
  apply (@dispatch_optional_arguments
           ["prog"; "race-pace"; "2024"; "Monza"; "R"; "VER"; "HAM"]%string
           (call_race_pace "2024" "Monza" "R"
              (skipn 5 ["prog"; "race-pace"; "2024"; "Monza"; "R"; "VER"; "HAM"]%string))).
  reflexivity.
Defined.

Example dispatch_samples :
  dispatch ["prog"]%string = MainUsage /\
  dispatch ["prog"; "gps"]%string = Exception "Usage: gps <year>" /\
  dispatch ["prog"; "laps"; "2024"]%string = Exception "Unknown command: laps" /\
  dispatch ["prog"; "telemetry"; "2024"; "Monza"; "R"; "VER"; "12"; "HAM"]%string
    = Call (call_telemetry "2024" "Monza" "R" "VER" "12" (Some "HAM"%string) None) /\
  dispatch ["prog"; "telemetry"; "2024"; "Monza"; "R"; "VER"; "12"; "HAM"; "14"]%string
    = Call (call_telemetry "2024" "Monza" "R" "VER" "12"
              (Some "HAM"%string) (Some "14"%string)).
Proof. repeat split. Qed.

(** ** Track order of a corner *)

(** X20. With a non-decreasing distance series, the brake point of a
    reported corner is not after its apex and the apex not after its
    exit. *)
Theorem corner_points_in_track_order
    (t : telemetry) (corners : list corner) (c : corner) :
  nondecreasing (values (Distance t)) ->
  get_corner_analysis t = Ok corners ->
  In c corners ->
  bp_distance (brakePoint c) <= apex_distance (apex c) /\
  apex_distance (apex c) <= exit_distance (exit c).
Proof.
  unfold get_corner_analysis, corner_scan. intros Hmono Hrun Hin.
  destruct (corner_loop_provenance _ _ _ _ _ _ _ _ Hrun c Hin)
    as [[] | (i & a & e & Hi & Hcand)].
  pose proof Hcand as Hc.
  apply candidate_inv in Hc as (j & delta & Hj & _ & _ & Hdata).
  apply corner_data_inv in Hdata as (_ & Hbd & _).
  apply candidate_inv_delta in Hcand
    as (_ & _ & _ & Hapex & Hexit & _ & Had & Hed & _).
  apply getitem_Ok in Hbd, Had, Hed.
  destruct (find_apex_inv _ _ Hapex) as (_ & _ & Hia & _).
  assert (Hji : (j <= i)%nat).
  { destruct (brake_point_idx_inv _ _ Hj) as [((? & ?) & _) | (-> & _)]; lia. }
  assert (Hae : (a <= e)%nat).
  { unfold find_exit in Hexit.
    destruct (exit_loop_inv _ _ _ _ _ _ Hexit) as [(? & _) | (-> & _)]; lia. }
  split.
  - apply (Hmono j a); [lia|exact Hbd|exact Had].
  - apply (Hmono a e); [lia|exact Had|exact Hed].
Qed.

Lemma corner_points_in_track_order_witness :
  bp_distance (brakePoint sample_corner_2) <= apex_distance (apex sample_corner_2) /\
  apex_distance (apex sample_corner_2) <= exit_distance (exit sample_corner_2).
Proof.
  apply (@corner_points_in_track_order sample_lap
           [sample_corner_1; sample_corner_2] sample_corner_2).
  - apply nondecreasingb_sound. vm_compute. reflexivity.
  - vm_compute. reflexivity.
  - right. left. reflexivity.
Defined.

